(** * Blog API: authors and posts

    A shallow embedding of [main.py], the FastAPI service that exposes
    authors and posts over a relational store through SQLAlchemy, and the
    properties of its request handlers.

    The database is two tables, kept as lists of rows in rowid order.  A
    request handler runs inside a session: queries read the rows of the
    database, changes to objects are collected by the session's unit of
    work and reach the database only at [db_commit]; the session is closed
    when the handler returns or raises, and whatever was not committed is
    dropped with it.  The ids of a request are Python ints; a query that
    compares a column with one that does not fit SQLite's 64-bit INTEGER
    raises [OverflowError]. *)

From Stdlib Require Import ZArith List String Bool Lia.
Import ListNotations.

Local Open Scope Z_scope.

(** ** SQLAlchemy models *)

Module Author.
(** [class Author(Base)], table [authors]. *)
Record t : Type := mk { id : Z; name : string; email : string }.
End Author.

Module Post.
(** [class Post(Base)], table [posts]. *)
Record t : Type :=
  mk { id : Z; title : string; content : string; author_id : Z }.
End Post.

(** The two tables behind [engine]. *)
Record Database : Type := { authors : list Author.t; posts : list Post.t }.

(** [Base.metadata.create_all]: both tables exist and are empty. *)
Definition create_all : Database := {| authors := []; posts := [] |}.

(** ** Pydantic schemas *)

Module AuthorCreate.
Record t : Type := mk { name : string; email : string }.
End AuthorCreate.

Module AuthorUpdate.
(** [Optional[...] = None]: a field left out of the body is [None]. *)
Record t : Type := mk { name : option string; email : option string }.
End AuthorUpdate.

Module AuthorOut.
Record t : Type := mk { id : Z; name : string; email : string }.

(** [orm_mode]: the response is read off the ORM object. *)
Definition from_orm (a : Author.t) : t :=
  {| id := Author.id a; name := Author.name a; email := Author.email a |}.
End AuthorOut.

Module PostCreate.
Record t : Type := mk { title : string; content : string; author_id : Z }.
End PostCreate.

Module PostUpdate.
Record t : Type := mk { title : option string; content : option string }.
End PostUpdate.

Module PostOut.
Record t : Type :=
  mk { id : Z; title : string; content : string; author_id : Z;
       author : option AuthorOut.t }.

(** [orm_mode], given the post's columns and what its [author]
    relationship holds. *)
Definition from_orm (p : Post.t) (a : option Author.t) : t :=
  {| id := Post.id p; title := Post.title p; content := Post.content p;
     author_id := Post.author_id p;
     author := option_map AuthorOut.from_orm a |}.

End PostOut.

(** ** Exceptions and results *)

(** What a handler can raise: the [HTTPException]s of [main.py],
    SQLAlchemy's [InvalidRequestError] when [db.refresh] finds no row, and
    the [OverflowError] of the database driver when a Python int that is
    bound as the parameter of a statement does not fit SQLite's INTEGER. *)
Inductive Exception : Type :=
| HTTPException (status_code : Z) (detail : string)
| InvalidRequestError
| OverflowError.

Inductive Result (A : Type) : Type :=
| Return (a : A)
| Raise (e : Exception).
Arguments Return {A} a.
Arguments Raise {A} e.

(** ** The session *)

(** What the unit of work holds until the next flush: new objects, changed
    attributes of persistent objects (by primary key), deleted objects. *)
Inductive Change : Type :=
| NewAuthor (name email : string)
| NewPost (title content : string) (author_id : Z)
| SetAuthorName (id : Z) (v : string)
| SetAuthorEmail (id : Z) (v : string)
| SetPostTitle (id : Z) (v : string)
| SetPostContent (id : Z) (v : string)
| DeletedAuthor (id : Z)
| DeletedPost (id : Z).

(** [SessionLocal()]: [autocommit=False, autoflush=False], so a query never
    writes pending changes; [lastrowid] is the key the last INSERT got. *)
Record Session : Type :=
  { database : Database; pending : list Change; lastrowid : Z }.

Definition SessionLocal (d : Database) : Session :=
  {| database := d; pending := []; lastrowid := 0 |}.

(** SQLite's INTEGER is a signed 64-bit integer; Python's [int] is not
    bounded. *)
Definition INTEGER_MIN : Z := - 2 ^ 63.
Definition INTEGER_MAX : Z := 2 ^ 63 - 1.

Definition fits_INTEGER (i : Z) : bool :=
  (INTEGER_MIN <=? i) && (i <=? INTEGER_MAX).

(** The key an [Integer] primary key gets on INSERT when none is given:
    one more than the largest key of the table, 1 in an empty table. *)
Definition next_rowid (ids : list Z) : Z :=
  match ids with
  | [] => 1
  | i :: r => fold_right Z.max i r + 1
  end.

Definition set_author_name (i : Z) (v : string) (a : Author.t) : Author.t :=
  if Author.id a =? i
  then {| Author.id := Author.id a; Author.name := v;
          Author.email := Author.email a |}
  else a.

Definition set_author_email (i : Z) (v : string) (a : Author.t) : Author.t :=
  if Author.id a =? i
  then {| Author.id := Author.id a; Author.name := Author.name a;
          Author.email := v |}
  else a.

Definition set_post_title (i : Z) (v : string) (p : Post.t) : Post.t :=
  if Post.id p =? i
  then {| Post.id := Post.id p; Post.title := v;
          Post.content := Post.content p;
          Post.author_id := Post.author_id p |}
  else p.

Definition set_post_content (i : Z) (v : string) (p : Post.t) : Post.t :=
  if Post.id p =? i
  then {| Post.id := Post.id p; Post.title := Post.title p;
          Post.content := v;
          Post.author_id := Post.author_id p |}
  else p.

(** One statement of a flush.  Deleting an author first deletes the posts
    of its [posts] relationship ([cascade="all, delete-orphan"]), that is
    the rows of [posts] whose [author_id] is the author's key. *)
Definition flush_change (s : Database * Z) (c : Change) : Database * Z :=
  let '(d, last) := s in
  match c with
  | NewAuthor n e =>
      let i := next_rowid (map Author.id (authors d)) in
      ({| authors := authors d ++ [Author.mk i n e]; posts := posts d |}, i)
  | NewPost t c a =>
      let i := next_rowid (map Post.id (posts d)) in
      ({| authors := authors d; posts := posts d ++ [Post.mk i t c a] |}, i)
  | SetAuthorName i v =>
      ({| authors := map (set_author_name i v) (authors d);
          posts := posts d |}, last)
  | SetAuthorEmail i v =>
      ({| authors := map (set_author_email i v) (authors d);
          posts := posts d |}, last)
  | SetPostTitle i v =>
      ({| authors := authors d;
          posts := map (set_post_title i v) (posts d) |}, last)
  | SetPostContent i v =>
      ({| authors := authors d;
          posts := map (set_post_content i v) (posts d) |}, last)
  | DeletedAuthor i =>
      ({| authors := filter (fun a => negb (Author.id a =? i)) (authors d);
          posts := filter (fun p => negb (Post.author_id p =? i)) (posts d) |},
       last)
  | DeletedPost i =>
      ({| authors := authors d;
          posts := filter (fun p => negb (Post.id p =? i)) (posts d) |}, last)
  end.

(** ** Handlers as session computations *)

Definition M (A : Type) : Type := Session -> Result A * Session.

Definition ret {A : Type} (a : A) : M A := fun s => (Return a, s).

Definition raise {A : Type} (e : Exception) : M A := fun s => (Raise e, s).

Definition bind {A B : Type} (m : M A) (k : A -> M B) : M B :=
  fun s =>
    match m s with
    | (Return a, s') => k a s'
    | (Raise e, s') => (Raise e, s')
    end.

Declare Scope session_scope.
Delimit Scope session_scope with session.
Notation "x <- m ;; k" := (bind m (fun x => k))
  (at level 100, m at next level, right associativity) : session_scope.
Notation "m ;; k" := (bind m (fun _ => k))
  (at level 100, right associativity) : session_scope.
Local Open Scope session_scope.

(** Executing a statement binds the ints of the request that its filter
    compares with ([params]); one that does not fit INTEGER raises
    [OverflowError] and the statement is not executed. *)
Definition execute {A : Type} (params : list Z) (rows : Database -> A)
  : M A :=
  fun s =>
    if forallb fits_INTEGER params
    then (Return (rows (database s)), s)
    else (Raise OverflowError, s).

(** [db.query(Author).filter(f).first()] *)
Definition query_Author_first (params : list Z) (f : Author.t -> bool)
  : M (option Author.t) :=
  execute params (fun d => find f (authors d)).

(** [db.query(Author).all()] *)
Definition query_Author_all : M (list Author.t) :=
  fun s => (Return (authors (database s)), s).

(** [db.query(Post).filter(f).first()] *)
Definition query_Post_first (params : list Z) (f : Post.t -> bool)
  : M (option Post.t) :=
  execute params (fun d => find f (posts d)).

(** The [author] relationship of a post: the row of [authors] its
    [author_id] points to, [None] when there is none. *)
Definition relationship_author (d : Database) (p : Post.t) : option Author.t :=
  find (fun a => Author.id a =? Post.author_id p) (authors d).

(** [db.query(Post).options(joinedload(Post.author)).filter(f).all()]: each
    post comes with its author, loaded by the same query. *)
Definition query_Post_joinedload_all (params : list Z) (f : Post.t -> bool)
  : M (list (Post.t * option Author.t)) :=
  execute params
    (fun d => map (fun p => (p, relationship_author d p))
                  (filter f (posts d))).

(** [db.query(Post).options(joinedload(Post.author)).filter(f).first()] *)
Definition query_Post_joinedload_first (params : list Z)
           (f : Post.t -> bool)
  : M (option (Post.t * option Author.t)) :=
  execute params
    (fun d => option_map (fun p => (p, relationship_author d p))
                         (find f (posts d))).

(** Reading [post.author] of a post whose relationship is not loaded yet
    (the response model does, while the session is still open). *)
Definition lazyload_author (p : Post.t) : M (option Author.t) :=
  fun s => (Return (relationship_author (database s) p), s).

(** [db.add], [db.delete] and attribute assignment: recorded, not written. *)
Definition register (c : Change) : M unit :=
  fun s =>
    (Return tt,
     {| database := database s; pending := pending s ++ [c];
        lastrowid := lastrowid s |}).

(** [db.commit()]: flush the pending changes in order, then commit. *)
Definition db_commit : M unit :=
  fun s =>
    let '(d, last) :=
      fold_left flush_change (pending s) (database s, lastrowid s) in
    (Return tt, {| database := d; pending := []; lastrowid := last |}).

(** The primary key the flush gave the object that was just added. *)
Definition inserted_primary_key : M Z :=
  fun s => (Return (lastrowid s), s).

(** [db.refresh(obj)]: read the row with the object's key again.  The key
    is not an int of the request but the one the database gave the object,
    and SQLite gives no key outside INTEGER. *)
Definition db_refresh_Author (i : Z) : M Author.t :=
  fun s =>
    match find (fun a => Author.id a =? i) (authors (database s)) with
    | Some a => (Return a, s)
    | None => (Raise InvalidRequestError, s)
    end.

Definition db_refresh_Post (i : Z) : M Post.t :=
  fun s =>
    match find (fun p => Post.id p =? i) (posts (database s)) with
    | Some p => (Return p, s)
    | None => (Raise InvalidRequestError, s)
    end.

(** [get_db]: open a session on the database for one request and close it
    in [finally]; closing drops what the session did not commit. *)
Definition get_db {A : Type} (handler : M A) (d : Database)
  : Result A * Database :=
  let '(r, s) := handler (SessionLocal d) in (r, database s).

(** ** Author endpoints *)

Definition create_author (author : AuthorCreate.t) : M AuthorOut.t :=
  existing <- query_Author_first []
                (fun a => String.eqb (Author.email a)
                                     (AuthorCreate.email author)) ;;
  match existing with
  | Some _ => raise (HTTPException 400 "Email already in use")
  | None =>
      register (NewAuthor (AuthorCreate.name author)
                          (AuthorCreate.email author)) ;;
      db_commit ;;
      key <- inserted_primary_key ;;
      new_author <- db_refresh_Author key ;;
      ret (AuthorOut.from_orm new_author)
  end.

Definition list_authors : M (list AuthorOut.t) :=
  all <- query_Author_all ;;
  ret (map AuthorOut.from_orm all).

Definition get_author (author_id : Z) : M AuthorOut.t :=
  author <- query_Author_first [author_id]
              (fun a => Author.id a =? author_id) ;;
  match author with
  | None => raise (HTTPException 404 "Author not found")
  | Some author => ret (AuthorOut.from_orm author)
  end.

Definition update_author (author_id : Z) (data : AuthorUpdate.t)
  : M AuthorOut.t :=
  author <- query_Author_first [author_id]
              (fun a => Author.id a =? author_id) ;;
  match author with
  | None => raise (HTTPException 404 "Author not found")
  | Some author =>
      match AuthorUpdate.name data with
      | Some v => register (SetAuthorName (Author.id author) v)
      | None => ret tt
      end ;;
      match AuthorUpdate.email data with
      | Some v =>
          email_owner <- query_Author_first [author_id]
                           (fun a => String.eqb (Author.email a) v
                                     && negb (Author.id a =? author_id)) ;;
          match email_owner with
          | Some _ => raise (HTTPException 400 "Email already in use")
          | None => register (SetAuthorEmail (Author.id author) v)
          end
      | None => ret tt
      end ;;
      db_commit ;;
      author <- db_refresh_Author (Author.id author) ;;
      ret (AuthorOut.from_orm author)
  end.

Definition delete_author (author_id : Z) : M string :=
  author <- query_Author_first [author_id]
              (fun a => Author.id a =? author_id) ;;
  match author with
  | None => raise (HTTPException 404 "Author not found")
  | Some author =>
      register (DeletedAuthor (Author.id author)) ;;
      db_commit ;;
      ret "Author and their posts deleted successfully"%string
  end.

(** ** Post endpoints *)

Definition create_post (post : PostCreate.t) : M PostOut.t :=
  author <- query_Author_first [PostCreate.author_id post]
              (fun a => Author.id a =? PostCreate.author_id post) ;;
  match author with
  | None => raise (HTTPException 400 "Author does not exist")
  | Some _ =>
      register (NewPost (PostCreate.title post) (PostCreate.content post)
                        (PostCreate.author_id post)) ;;
      db_commit ;;
      key <- inserted_primary_key ;;
      new_post <- db_refresh_Post key ;;
      new_post <- db_refresh_Post (Post.id new_post) ;;
      a <- lazyload_author new_post ;;
      ret (PostOut.from_orm new_post a)
  end.

Definition list_posts (author_id : option Z) : M (list PostOut.t) :=
  posts <- query_Post_joinedload_all
             (match author_id with
              | Some i => [i]
              | None => []
              end)
             (fun p => match author_id with
                       | Some i => Post.author_id p =? i
                       | None => true
                       end) ;;
  ret (map (fun pa => PostOut.from_orm (fst pa) (snd pa)) posts).

Definition get_post (post_id : Z) : M PostOut.t :=
  post <- query_Post_joinedload_first [post_id]
            (fun p => Post.id p =? post_id) ;;
  match post with
  | None => raise (HTTPException 404 "Post not found")
  | Some (post, a) => ret (PostOut.from_orm post a)
  end.

Definition update_post (post_id : Z) (data : PostUpdate.t) : M PostOut.t :=
  post <- query_Post_first [post_id] (fun p => Post.id p =? post_id) ;;
  match post with
  | None => raise (HTTPException 404 "Post not found")
  | Some post =>
      match PostUpdate.title data with
      | Some v => register (SetPostTitle (Post.id post) v)
      | None => ret tt
      end ;;
      match PostUpdate.content data with
      | Some v => register (SetPostContent (Post.id post) v)
      | None => ret tt
      end ;;
      db_commit ;;
      post <- db_refresh_Post (Post.id post) ;;
      a <- lazyload_author post ;;
      ret (PostOut.from_orm post a)
  end.

Definition delete_post (post_id : Z) : M string :=
  post <- query_Post_first [post_id] (fun p => Post.id p =? post_id) ;;
  match post with
  | None => raise (HTTPException 404 "Post not found")
  | Some post =>
      register (DeletedPost (Post.id post)) ;;
      db_commit ;;
      ret "Post deleted successfully"%string
  end.

(** ** Nested resource *)

Definition get_author_posts (author_id : Z) : M (list PostOut.t) :=
  author <- query_Author_first [author_id]
              (fun a => Author.id a =? author_id) ;;
  match author with
  | None => raise (HTTPException 404 "Author not found")
  | Some _ =>
      posts <- query_Post_joinedload_all [author_id]
                 (fun p => Post.author_id p =? author_id) ;;
      ret (map (fun pa => PostOut.from_orm (fst pa) (snd pa)) posts)
  end.

(** ** The service as a transition system *)

Inductive Request : Type :=
| POST_authors (author : AuthorCreate.t)
| GET_authors
| GET_author (author_id : Z)
| PUT_author (author_id : Z) (data : AuthorUpdate.t)
| DELETE_author (author_id : Z)
| POST_posts (post : PostCreate.t)
| GET_posts (author_id : option Z)
| GET_post (post_id : Z)
| PUT_post (post_id : Z) (data : PostUpdate.t)
| DELETE_post (post_id : Z)
| GET_author_posts (author_id : Z).

(** The database after the application served one request. *)
Definition app (r : Request) (d : Database) : Database :=
  match r with
  | POST_authors author => snd (get_db (create_author author) d)
  | GET_authors => snd (get_db list_authors d)
  | GET_author i => snd (get_db (get_author i) d)
  | PUT_author i data => snd (get_db (update_author i data) d)
  | DELETE_author i => snd (get_db (delete_author i) d)
  | POST_posts post => snd (get_db (create_post post) d)
  | GET_posts i => snd (get_db (list_posts i) d)
  | GET_post i => snd (get_db (get_post i) d)
  | PUT_post i data => snd (get_db (update_post i data) d)
  | DELETE_post i => snd (get_db (delete_post i) d)
  | GET_author_posts i => snd (get_db (get_author_posts i) d)
  end.

(** The exception a request ends in, if it does. *)
Definition raised {A : Type} (r : Result A) : option Exception :=
  match r with
  | Return _ => None
  | Raise e => Some e
  end.

Definition app_raises (r : Request) (d : Database) : option Exception :=
  match r with
  | POST_authors author => raised (fst (get_db (create_author author) d))
  | GET_authors => raised (fst (get_db list_authors d))
  | GET_author i => raised (fst (get_db (get_author i) d))
  | PUT_author i data => raised (fst (get_db (update_author i data) d))
  | DELETE_author i => raised (fst (get_db (delete_author i) d))
  | POST_posts post => raised (fst (get_db (create_post post) d))
  | GET_posts i => raised (fst (get_db (list_posts i) d))
  | GET_post i => raised (fst (get_db (get_post i) d))
  | PUT_post i data => raised (fst (get_db (update_post i data) d))
  | DELETE_post i => raised (fst (get_db (delete_post i) d))
  | GET_author_posts i => raised (fst (get_db (get_author_posts i) d))
  end.

(** The database after a sequence of requests, served one after another. *)
Definition serve (rs : list Request) (d : Database) : Database :=
  fold_left (fun d r => app r d) rs d.

(** The states of the service: what a sequence of requests makes of the
    empty tables. *)
Definition reachable (d : Database) : Prop :=
  exists rs : list Request, d = serve rs create_all.

(** ** What the store must satisfy *)

(** Primary keys: no two rows of a table have the same [id]. *)
Definition primary_keys (d : Database) : Prop :=
  NoDup (map Author.id (authors d)) /\ NoDup (map Post.id (posts d)).

(** [unique=True] on [Author.email]. *)
Definition unique_emails (d : Database) : Prop :=
  NoDup (map Author.email (authors d)).

(** [ForeignKey("authors.id")]: every post's [author_id] is the key of a
    stored author. *)
Definition foreign_keys (d : Database) : Prop :=
  forall p, In p (posts d) ->
    exists a, In a (authors d) /\ Author.id a = Post.author_id p.

(** ** The endpoints in terms of the tables *)

(** What a partial update makes of a row. *)
Definition patch_author (i : Z) (data : AuthorUpdate.t) (a : Author.t)
  : Author.t :=
  if Author.id a =? i
  then {| Author.id := Author.id a;
          Author.name := match AuthorUpdate.name data with
                         | Some v => v
                         | None => Author.name a
                         end;
          Author.email := match AuthorUpdate.email data with
                          | Some v => v
                          | None => Author.email a
                          end |}
  else a.

Definition patch_post (i : Z) (data : PostUpdate.t) (p : Post.t) : Post.t :=
  if Post.id p =? i
  then {| Post.id := Post.id p;
          Post.title := match PostUpdate.title data with
                        | Some v => v
                        | None => Post.title p
                        end;
          Post.content := match PostUpdate.content data with
                          | Some v => v
                          | None => Post.content p
                          end;
          Post.author_id := Post.author_id p |}
  else p.

(** The author the handlers' lookup by the key [i] yields; none when [i]
    cannot be bound. *)
Definition author_with_id (i : Z) (d : Database) : option Author.t :=
  if fits_INTEGER i
  then find (fun a => Author.id a =? i) (authors d)
  else None.

Definition post_with_id (i : Z) (d : Database) : option Post.t :=
  if fits_INTEGER i
  then find (fun p => Post.id p =? i) (posts d)
  else None.

(** Some author holds the email [e]. *)
Definition email_in_use (e : string) (d : Database) : bool :=
  existsb (fun a => String.eqb (Author.email a) e) (authors d).

(** Some author other than [i] holds the email [e]. *)
Definition email_of_another (i : Z) (e : string) (d : Database) : bool :=
  existsb (fun a => String.eqb (Author.email a) e && negb (Author.id a =? i))
          (authors d).

(** The failures of the service, as [main.py] raises them. *)
Definition Author_not_found : Exception :=
  HTTPException 404 "Author not found".
Definition Post_not_found : Exception :=
  HTTPException 404 "Post not found".
Definition Email_already_in_use : Exception :=
  HTTPException 400 "Email already in use".
Definition Author_does_not_exist : Exception :=
  HTTPException 400 "Author does not exist".

(** The kinds of client failure. *)
Inductive Kind : Type := NotFound | Conflict | ValidationError.

(** Some stored author, some stored post has the id [i]. *)
Definition author_exists (i : Z) (d : Database) : bool :=
  existsb (fun a => Author.id a =? i) (authors d).

Definition post_exists (i : Z) (d : Database) : bool :=
  existsb (fun p => Post.id p =? i) (posts d).

(** Why a request fails, read off the request and the store, not off the
    response: the id it names does not exist (NotFound), the email it
    supplies is held by an author, by another author for an update
    (Conflict), the author it names for a new post does not exist
    (ValidationError); an update is NotFound before it is Conflict. *)
Definition failure (r : Request) (d : Database) : option Kind :=
  match r with
  | POST_authors author =>
      if email_in_use (AuthorCreate.email author) d then Some Conflict
      else None
  | GET_authors => None
  | GET_author i | DELETE_author i | GET_author_posts i =>
      if author_exists i d then None else Some NotFound
  | PUT_author i data =>
      if author_exists i d
      then match AuthorUpdate.email data with
           | Some v => if email_of_another i v d then Some Conflict else None
           | None => None
           end
      else Some NotFound
  | POST_posts post =>
      if author_exists (PostCreate.author_id post) d then None
      else Some ValidationError
  | GET_posts _ => None
  | GET_post i | PUT_post i _ | DELETE_post i =>
      if post_exists i d then None else Some NotFound
  end.

(** Every key the store holds is an INTEGER value, as in any SQLite
    database. *)
Definition keys_fit (d : Database) : bool :=
  forallb (fun a => fits_INTEGER (Author.id a)) (authors d)
  && forallb (fun p => fits_INTEGER (Post.id p)) (posts d).

(** Every id the request carries, in its path, its query or its body, fits
    INTEGER. *)
Definition ids_fit (r : Request) : bool :=
  match r with
  | POST_authors _ | GET_authors | GET_posts None => true
  | GET_author i | PUT_author i _ | DELETE_author i | GET_author_posts i
  | GET_posts (Some i) | GET_post i | PUT_post i _ | DELETE_post i => 
      fits_INTEGER i
  | POST_posts post => fits_INTEGER (PostCreate.author_id post)
  end.

Definition status_of (e : Exception) : option Z :=
  match e with
  | HTTPException status_code _ => Some status_code
  | InvalidRequestError | OverflowError => None
  end.

(** No stored author has an empty name, no stored post an empty title. *)
Definition names_nonempty (d : Database) : Prop :=
  (forall a, In a (authors d) -> Author.name a <> EmptyString) /\
  (forall p, In p (posts d) -> Post.title p <> EmptyString).

(** The request supplies no empty name and no empty title. *)
Definition supplies_nonempty (r : Request) : Prop :=
  match r with
  | POST_authors author => AuthorCreate.name author <> EmptyString
  | PUT_author _ data => AuthorUpdate.name data <> Some EmptyString
  | POST_posts post => PostCreate.title post <> EmptyString
  | PUT_post _ data => PostUpdate.title data <> Some EmptyString
  | _ => True
  end.

(** The example of the specification: Ada and her first post. *)
Definition ada : AuthorCreate.t := AuthorCreate.mk "Ada" "ada@x.io".
Definition hi : PostCreate.t := PostCreate.mk "Hi" "World" 1.
Definition blog : Database :=
  serve [POST_authors ada; POST_posts hi] create_all.

(** A second author, without posts, next to Ada. *)
Definition bob : AuthorCreate.t := AuthorCreate.mk "Bob" "bob@x.io".
Definition blog2 : Database := serve [POST_authors bob] blog.

(** An author and a post whose name and title are the empty string. *)
Definition anonymous : AuthorCreate.t := AuthorCreate.mk "" "ada@x.io".
Definition untitled : PostCreate.t := PostCreate.mk "" "World" 1.
Definition blank : Database :=
  serve [POST_authors anonymous; POST_posts untitled] create_all.

(** What a partial update leaves of a stored author: its id, the fields
    the update does not supply and, if the update is for another id, the
    whole row. *)
Definition author_frame (i : Z) (data : AuthorUpdate.t) (a a' : Author.t)
  : Prop :=
  Author.id a' = Author.id a
  /\ (AuthorUpdate.name data = None -> Author.name a' = Author.name a)
  /\ (AuthorUpdate.email data = None -> Author.email a' = Author.email a)
  /\ (Author.id a <> i -> a' = a).

(** What a partial update leaves of a stored post; its [author_id] always. *)
Definition post_frame (i : Z) (data : PostUpdate.t) (p p' : Post.t) : Prop :=
  Post.id p' = Post.id p
  /\ Post.author_id p' = Post.author_id p
  /\ (PostUpdate.title data = None -> Post.title p' = Post.title p)
  /\ (PostUpdate.content data = None -> Post.content p' = Post.content p)
  /\ (Post.id p <> i -> p' = p).

(** Ada's name and the title of her post replaced by the empty string. *)
Definition blanked : Database :=
  serve [PUT_author 1 (AuthorUpdate.mk (Some EmptyString) None);
         PUT_post 1 (PostUpdate.mk (Some EmptyString) None)] blog.

(** The least int above INTEGER. *)
Definition too_large : Z := 2 ^ 63.

(** A post for an author that does not exist. *)
Definition orphan : PostCreate.t := PostCreate.mk "Hi" "World" 7.

(** The requests served by the handlers that only query. *)
Definition is_read (r : Request) : bool :=
  match r with
  | GET_authors | GET_author _ | GET_posts _ | GET_post _
  | GET_author_posts _ => true
  | _ => false
  end.

(** Bob's attempt to take Ada's email while changing his name. *)
Definition take_over : AuthorUpdate.t :=
  AuthorUpdate.mk (Some "Bobby"%string) (Some "ada@x.io"%string).

(** ** Lists *)

Section ListFacts.
Context {A : Type}.

Lemma find_app (f : A -> bool) (l l' : list A) :
  find f (l ++ l') =
  match find f l with
  | Some x => Some x
  | None => find f l'
  end.
Proof.
  induction l as [|x l IH]; simpl; [reflexivity|].
  destruct (f x); [reflexivity|exact IH].
Qed.

Lemma find_none_iff (f : A -> bool) (l : list A) :
  find f l = None <-> forall x, In x l -> f x = false.
Proof.
  split.
  - apply find_none.
  - induction l as [|x l IH]; simpl; intros H; [reflexivity|].
    rewrite (H x (or_introl eq_refl)). apply IH.
    intros y Hy. apply H. now right.
Qed.

Lemma find_existsb (f : A -> bool) (l : list A) :
  existsb f l = match find f l with Some _ => true | None => false end.
Proof.
  induction l as [|x l IH]; simpl; [reflexivity|].
  destruct (f x); simpl; [reflexivity|exact IH].
Qed.

Lemma existsb_false (f : A -> bool) (l : list A) :
  existsb f l = false <-> forall x, In x l -> f x = false.
Proof.
  rewrite find_existsb, <- find_none_iff.
  destruct (find f l); split; congruence.
Qed.

Lemma find_map_stable (f : A -> bool) (g : A -> A) (l : list A) :
  (forall x, f (g x) = f x) ->
  find f (map g l) = option_map g (find f l).
Proof.
  intros Hfg. induction l as [|x l IH]; simpl; [reflexivity|].
  rewrite Hfg. destruct (f x); [reflexivity|exact IH].
Qed.

Lemma map_fixed (g : A -> A) (l : list A) :
  (forall x, g x = x) -> map g l = l.
Proof.
  intros Hg. induction l as [|x l IH]; simpl; [reflexivity|].
  now rewrite Hg, IH.
Qed.

Lemma NoDup_map_filter {B : Type} (k : A -> B) (f : A -> bool) (l : list A) :
  NoDup (map k l) -> NoDup (map k (filter f l)).
Proof.
  induction l as [|x l IH]; simpl; intros H; [exact H|].
  inversion H as [|? ? Hx Hl]; subst.
  destruct (f x); simpl; [constructor|]; auto.
  intros Hin. apply Hx. apply in_map_iff in Hin as (y & Hy & Hin).
  apply filter_In in Hin as [Hin _]. apply in_map_iff. eauto.
Qed.
End ListFacts.

(** ** Fresh keys *)

Lemma fold_max_bounds (i : Z) (r : list Z) :
  i <= fold_right Z.max i r /\ forall x, In x r -> x <= fold_right Z.max i r.
Proof.
  induction r as [|y r [IH1 IH2]]; simpl.
  - split; [lia|tauto].
  - split; [lia|]. intros x [->|Hx]; [lia|]. specialize (IH2 x Hx). lia.
Qed.

Lemma next_rowid_fresh (ids : list Z) (x : Z) :
  In x ids -> x < next_rowid ids.
Proof.
  destruct ids as [|i r]; simpl; [tauto|].
  destruct (fold_max_bounds i r) as [H1 H2].
  intros [->|Hx]; [lia|]. specialize (H2 x Hx). lia.
Qed.

Lemma next_rowid_not_in (ids : list Z) : ~ In (next_rowid ids) ids.
Proof. intros H. apply next_rowid_fresh in H. lia. Qed.

Lemma author_key_fresh (l : list Author.t) :
  find (fun a => Author.id a =? next_rowid (map Author.id l)) l = None.
Proof.
  apply find_none_iff. intros a Ha. apply Z.eqb_neq.
  assert (H : In (Author.id a) (map Author.id l)) by now apply in_map.
  apply next_rowid_fresh in H. lia.
Qed.

Lemma post_key_fresh (l : list Post.t) :
  find (fun p => Post.id p =? next_rowid (map Post.id l)) l = None.
Proof.
  apply find_none_iff. intros p Hp. apply Z.eqb_neq.
  assert (H : In (Post.id p) (map Post.id l)) by now apply in_map.
  apply next_rowid_fresh in H. lia.
Qed.

(** ** Rows and records *)

Lemma Database_eta (d : Database) :
  {| authors := authors d; posts := posts d |} = d.
Proof. now destruct d. Qed.

Lemma patch_author_id i data a :
  Author.id (patch_author i data a) = Author.id a.
Proof. unfold patch_author. now destruct (Author.id a =? i). Qed.

Lemma patch_post_id i data p : Post.id (patch_post i data p) = Post.id p.
Proof. unfold patch_post. now destruct (Post.id p =? i). Qed.

Lemma patch_post_author_id i data p :
  Post.author_id (patch_post i data p) = Post.author_id p.
Proof. unfold patch_post. now destruct (Post.id p =? i). Qed.

Lemma patch_author_empty i a :
  patch_author i (AuthorUpdate.mk None None) a = a.
Proof. unfold patch_author. destruct a; simpl. now destruct (_ =? _). Qed.

Lemma patch_post_empty i p : patch_post i (PostUpdate.mk None None) p = p.
Proof. unfold patch_post. destruct p; simpl. now destruct (_ =? _). Qed.

(** The statements of an author update, flushed one after the other, make
    of each row what [patch_author] says. *)
Lemma set_author_fields i data a :
  patch_author i data a =
  (match AuthorUpdate.email data with
   | Some v => set_author_email i v
   | None => fun a => a
   end)
    ((match AuthorUpdate.name data with
      | Some v => set_author_name i v
      | None => fun a => a
      end) a).
Proof.
  unfold patch_author, set_author_email, set_author_name.
  destruct data as [[n|] [e|]], a as [k n0 e0]; simpl;
    destruct (k =? i) eqn:E; simpl; rewrite ?E; reflexivity.
Qed.

Lemma set_post_fields i data p :
  patch_post i data p =
  (match PostUpdate.content data with
   | Some v => set_post_content i v
   | None => fun p => p
   end)
    ((match PostUpdate.title data with
      | Some v => set_post_title i v
      | None => fun p => p
      end) p).
Proof.
  unfold patch_post, set_post_content, set_post_title.
  destruct data as [[t|] [c|]], p as [k t0 c0 a0]; simpl;
    destruct (k =? i) eqn:E; simpl; rewrite ?E; reflexivity.
Qed.

Lemma map_patch_author i data l :
  map (patch_author i data) l =
  map (match AuthorUpdate.email data with
       | Some v => set_author_email i v
       | None => fun a => a
       end)
      (map (match AuthorUpdate.name data with
            | Some v => set_author_name i v
            | None => fun a => a
            end) l).
Proof. rewrite map_map. apply map_ext. apply set_author_fields. Qed.

Lemma map_patch_post i data l :
  map (patch_post i data) l =
  map (match PostUpdate.content data with
       | Some v => set_post_content i v
       | None => fun p => p
       end)
      (map (match PostUpdate.title data with
            | Some v => set_post_title i v
            | None => fun p => p
            end) l).
Proof. rewrite map_map. apply map_ext. apply set_post_fields. Qed.

Lemma find_author_id i l a :
  find (fun a => Author.id a =? i) l = Some a -> In a l /\ Author.id a = i.
Proof.
  intros H. apply find_some in H as [H1 H2]. split; [exact H1|].
  now apply Z.eqb_eq.
Qed.

Lemma find_post_id i l p :
  find (fun p => Post.id p =? i) l = Some p -> In p l /\ Post.id p = i.
Proof.
  intros H. apply find_some in H as [H1 H2]. split; [exact H1|].
  now apply Z.eqb_eq.
Qed.

(** ** Each endpoint, in terms of the tables *)

(** Run a handler's session step by step. *)
Ltac session :=
  unfold get_db, db_refresh_Author, db_refresh_Post, lazyload_author,
    inserted_primary_key, db_commit, register, query_Author_first,
    query_Author_all, query_Post_first, query_Post_joinedload_all,
    query_Post_joinedload_first, execute, bind, ret, raise, SessionLocal;
  simpl.

Lemma author_with_id_fits (i : Z) (d : Database) :
  fits_INTEGER i = true ->
  author_with_id i d = find (fun a => Author.id a =? i) (authors d).
Proof. unfold author_with_id. now intros ->. Qed.

Lemma post_with_id_fits (i : Z) (d : Database) :
  fits_INTEGER i = true ->
  post_with_id i d = find (fun p => Post.id p =? i) (posts d).
Proof. unfold post_with_id. now intros ->. Qed.

Lemma author_with_id_found (i : Z) (d : Database) (a : Author.t) :
  author_with_id i d = Some a ->
  In a (authors d) /\ Author.id a = i /\ fits_INTEGER i = true
  /\ find (fun a => Author.id a =? i) (authors d) = Some a.
Proof.
  unfold author_with_id. destruct (fits_INTEGER i); [|discriminate].
  intros H. destruct (find_author_id _ _ _ H). auto.
Qed.

Lemma post_with_id_found (i : Z) (d : Database) (p : Post.t) :
  post_with_id i d = Some p ->
  In p (posts d) /\ Post.id p = i /\ fits_INTEGER i = true
  /\ find (fun p => Post.id p =? i) (posts d) = Some p.
Proof.
  unfold post_with_id. destruct (fits_INTEGER i); [|discriminate].
  intros H. destruct (find_post_id _ _ _ H). auto.
Qed.

Lemma create_author_run (author : AuthorCreate.t) (d : Database) :
  get_db (create_author author) d =
  if email_in_use (AuthorCreate.email author) d
  then (Raise Email_already_in_use, d)
  else
    let a := Author.mk (next_rowid (map Author.id (authors d)))
                       (AuthorCreate.name author)
                       (AuthorCreate.email author) in
    (Return (AuthorOut.from_orm a),
     {| authors := authors d ++ [a]; posts := posts d |}).
Proof.
  unfold email_in_use. rewrite find_existsb.
  unfold create_author. session.
  destruct (find _ (authors d)) as [a|]; simpl; [reflexivity|].
  rewrite find_app, author_key_fresh. simpl.
  now rewrite Z.eqb_refl.
Qed.

Lemma list_authors_run (d : Database) :
  get_db list_authors d = (Return (map AuthorOut.from_orm (authors d)), d).
Proof. reflexivity. Qed.

Lemma get_author_run (i : Z) (d : Database) :
  get_db (get_author i) d =
  if fits_INTEGER i
  then match author_with_id i d with
       | None => (Raise Author_not_found, d)
       | Some a => (Return (AuthorOut.from_orm a), d)
       end
  else (Raise OverflowError, d).
Proof.
  unfold author_with_id, get_author. session.
  destruct (fits_INTEGER i); [|reflexivity]. simpl.
  now destruct (find _ (authors d)).
Qed.

Lemma update_author_run (i : Z) (data : AuthorUpdate.t) (d : Database) :
  get_db (update_author i data) d =
  if fits_INTEGER i
  then match author_with_id i d with
       | None => (Raise Author_not_found, d)
       | Some a =>
           if match AuthorUpdate.email data with
              | Some v => email_of_another i v d
              | None => false
              end
           then (Raise Email_already_in_use, d)
           else (Return (AuthorOut.from_orm (patch_author i data a)),
                 {| authors := map (patch_author i data) (authors d);
                    posts := posts d |})
       end
  else (Raise OverflowError, d).
Proof.
  unfold author_with_id, update_author. session.
  destruct (fits_INTEGER i); [|reflexivity]. simpl.
  destruct (find _ (authors d)) as [a|] eqn:Ha; [|reflexivity].
  destruct (find_author_id _ _ _ Ha) as [_ Hi]. rewrite Hi.
  assert (Hr : find (fun a0 => Author.id a0 =? i)
                    (map (patch_author i data) (authors d))
               = Some (patch_author i data a)).
  { rewrite find_map_stable, Ha; [reflexivity|].
    intros x. now rewrite patch_author_id. }
  rewrite map_patch_author in Hr. rewrite map_patch_author.
  unfold email_of_another.
  destruct data as [[n|] [e|]]; simpl in *; rewrite ?find_existsb;
    try destruct (find (fun a0 => String.eqb (Author.email a0) e
                                  && negb (Author.id a0 =? i)) (authors d));
    simpl; rewrite ?map_id in *; try rewrite Hr; simpl;
    rewrite ?Database_eta; reflexivity.
Qed.

Lemma delete_author_run (i : Z) (d : Database) :
  get_db (delete_author i) d =
  if fits_INTEGER i
  then match author_with_id i d with
       | None => (Raise Author_not_found, d)
       | Some _ =>
           (Return "Author and their posts deleted successfully"%string,
            {| authors :=
                 filter (fun a => negb (Author.id a =? i)) (authors d);
               posts :=
                 filter (fun p => negb (Post.author_id p =? i)) (posts d) |})
       end
  else (Raise OverflowError, d).
Proof.
  unfold author_with_id, delete_author. session.
  destruct (fits_INTEGER i); [|reflexivity]. simpl.
  destruct (find _ (authors d)) as [a|] eqn:Ha; [|reflexivity].
  destruct (find_author_id _ _ _ Ha) as [_ Hi]. now rewrite Hi.
Qed.

Lemma create_post_run (post : PostCreate.t) (d : Database) :
  get_db (create_post post) d =
  if fits_INTEGER (PostCreate.author_id post)
  then match author_with_id (PostCreate.author_id post) d with
       | None => (Raise Author_does_not_exist, d)
       | Some a =>
           let p := Post.mk (next_rowid (map Post.id (posts d)))
                            (PostCreate.title post) (PostCreate.content post)
                            (PostCreate.author_id post) in
           (Return (PostOut.from_orm p (Some a)),
            {| authors := authors d; posts := posts d ++ [p] |})
       end
  else (Raise OverflowError, d).
Proof.
  unfold author_with_id, create_post. session.
  destruct (fits_INTEGER (PostCreate.author_id post)); [|reflexivity]. simpl.
  destruct (find _ (authors d)) as [a|] eqn:Ha; [|reflexivity].
  simpl. rewrite find_app, post_key_fresh. simpl. rewrite Z.eqb_refl. simpl.
  rewrite find_app, post_key_fresh. simpl. rewrite Z.eqb_refl. simpl.
  unfold relationship_author. simpl. now rewrite Ha.
Qed.

Lemma list_posts_run (i : option Z) (d : Database) :
  get_db (list_posts i) d =
  if match i with
     | Some i => fits_INTEGER i
     | None => true
     end
  then (Return (map (fun p => PostOut.from_orm p (relationship_author d p))
                    (filter (fun p => match i with
                                      | Some i => Post.author_id p =? i
                                      | None => true
                                      end) (posts d))), d)
  else (Raise OverflowError, d).
Proof.
  unfold list_posts. session. destruct i as [i|]; simpl.
  - destruct (fits_INTEGER i); [|reflexivity]. simpl. now rewrite map_map.
  - now rewrite map_map.
Qed.

Lemma list_posts_all_run (d : Database) :
  get_db (list_posts None) d =
  (Return (map (fun p => PostOut.from_orm p (relationship_author d p))
               (filter (fun _ => true) (posts d))), d).
Proof. exact (list_posts_run None d). Qed.

Lemma get_post_run (i : Z) (d : Database) :
  get_db (get_post i) d =
  if fits_INTEGER i
  then match post_with_id i d with
       | None => (Raise Post_not_found, d)
       | Some p => (Return (PostOut.from_orm p (relationship_author d p)), d)
       end
  else (Raise OverflowError, d).
Proof.
  unfold post_with_id, get_post. session.
  destruct (fits_INTEGER i); [|reflexivity]. simpl.
  now destruct (find _ (posts d)).
Qed.

Lemma update_post_run (i : Z) (data : PostUpdate.t) (d : Database) :
  get_db (update_post i data) d =
  if fits_INTEGER i
  then match post_with_id i d with
       | None => (Raise Post_not_found, d)
       | Some p =>
           (Return (PostOut.from_orm (patch_post i data p)
                                     (relationship_author d p)),
            {| authors := authors d;
               posts := map (patch_post i data) (posts d) |})
       end
  else (Raise OverflowError, d).
Proof.
  unfold post_with_id, update_post. session.
  destruct (fits_INTEGER i); [|reflexivity]. simpl.
  destruct (find _ (posts d)) as [p|] eqn:Hp; [|reflexivity].
  destruct (find_post_id _ _ _ Hp) as [_ Hi]. rewrite Hi.
  assert (Hr : find (fun p0 => Post.id p0 =? i)
                    (map (patch_post i data) (posts d))
               = Some (patch_post i data p)).
  { rewrite find_map_stable, Hp; [reflexivity|].
    intros x. now rewrite patch_post_id. }
  rewrite map_patch_post in Hr. rewrite map_patch_post.
  unfold relationship_author.
  rewrite <- (patch_post_author_id i data p).
  destruct data as [[t|] [c|]]; simpl in *;
    rewrite ?map_id in *; rewrite Hr; simpl;
    rewrite ?Database_eta; reflexivity.
Qed.

Lemma delete_post_run (i : Z) (d : Database) :
  get_db (delete_post i) d =
  if fits_INTEGER i
  then match post_with_id i d with
       | None => (Raise Post_not_found, d)
       | Some _ =>
           (Return "Post deleted successfully"%string,
            {| authors := authors d;
               posts := filter (fun p => negb (Post.id p =? i)) (posts d) |})
       end
  else (Raise OverflowError, d).
Proof.
  unfold post_with_id, delete_post. session.
  destruct (fits_INTEGER i); [|reflexivity]. simpl.
  destruct (find _ (posts d)) as [p|] eqn:Hp; [|reflexivity].
  destruct (find_post_id _ _ _ Hp) as [_ Hi]. now rewrite Hi.
Qed.

Lemma get_author_posts_run (i : Z) (d : Database) :
  get_db (get_author_posts i) d =
  if fits_INTEGER i
  then match author_with_id i d with
       | None => (Raise Author_not_found, d)
       | Some _ =>
           (Return (map (fun p => PostOut.from_orm p
                                    (relationship_author d p))
                        (filter (fun p => Post.author_id p =? i) (posts d))),
            d)
       end
  else (Raise OverflowError, d).
Proof.
  unfold author_with_id, get_author_posts. session.
  destruct (fits_INTEGER i); [|reflexivity]. simpl.
  destruct (find _ (authors d)); [|reflexivity].
  simpl. now rewrite map_map.
Qed.

(** ** Constraints kept by every request *)

(** Expose the tables a request leaves behind. *)
Ltac endpoint :=
  simpl;
  rewrite ?create_author_run, ?list_authors_run, ?get_author_run,
    ?update_author_run, ?delete_author_run, ?create_post_run,
    ?list_posts_run, ?get_post_run, ?update_post_run, ?delete_post_run,
    ?get_author_posts_run;
  repeat match goal with
    | |- context [match author_with_id ?i ?d with _ => _ end] =>
        let E := fresh "Hauthor" in destruct (author_with_id i d) eqn:E
    | |- context [match post_with_id ?i ?d with _ => _ end] =>
        let E := fresh "Hpost" in destruct (post_with_id i d) eqn:E
    | |- context [if ?b then _ else _] =>
        let E := fresh "Hcheck" in destruct b eqn:E
    end;
  simpl.

Lemma NoDup_snoc {A : Type} (l : list A) (x : A) :
  NoDup l -> ~ In x l -> NoDup (l ++ [x]).
Proof.
  intros Hl Hx. apply NoDup_app; [exact Hl|repeat constructor; tauto|].
  intros y Hy [<-|[]]. tauto.
Qed.

Lemma map_id_patch_author i data l :
  map Author.id (map (patch_author i data) l) = map Author.id l.
Proof. rewrite map_map. apply map_ext. apply patch_author_id. Qed.

Lemma map_id_patch_post i data l :
  map Post.id (map (patch_post i data) l) = map Post.id l.
Proof. rewrite map_map. apply map_ext. apply patch_post_id. Qed.

Lemma app_foreign_keys (r : Request) (d : Database) :
  foreign_keys d -> foreign_keys (app r d).
Proof.
  unfold foreign_keys. intros FK.
  destruct r; endpoint; try exact FK; intros p Hp.
  - (* a new author *)
    destruct (FK p Hp) as (a & Ha & E). exists a. split; [|exact E].
    apply in_or_app. now left.
  - (* an author updated *)
    destruct (FK p Hp) as (a & Ha & E).
    exists (patch_author author_id data a). split; [now apply in_map|].
    now rewrite patch_author_id.
  - (* an author deleted, with its posts *)
    apply filter_In in Hp as [Hp Hne].
    destruct (FK p Hp) as (a & Ha & E). exists a. split; [|exact E].
    apply filter_In. split; [exact Ha|]. now rewrite E.
  - (* a new post *)
    apply in_app_or in Hp as [Hp|[<-|[]]]; [now apply FK|].
    simpl. apply author_with_id_found in Hauthor as (Ha & E & _). eauto.
  - (* a post updated *)
    apply in_map_iff in Hp as (q & <- & Hq).
    rewrite patch_post_author_id. now apply FK.
  - (* a post deleted *)
    apply filter_In in Hp as [Hp _]. now apply FK.
Qed.

Lemma app_primary_keys (r : Request) (d : Database) :
  primary_keys d -> primary_keys (app r d).
Proof.
  unfold primary_keys. intros [PA PP].
  destruct r; endpoint; try (split; assumption); split; try assumption.
  - rewrite map_app. apply NoDup_snoc; [exact PA|]. apply next_rowid_not_in.
  - now rewrite map_id_patch_author.
  - now apply NoDup_map_filter.
  - now apply NoDup_map_filter.
  - rewrite map_app. apply NoDup_snoc; [exact PP|]. apply next_rowid_not_in.
  - now rewrite map_id_patch_post.
  - now apply NoDup_map_filter.
Qed.

Lemma patch_author_email i data a :
  Author.email (patch_author i data a) =
  if Author.id a =? i
  then match AuthorUpdate.email data with
       | Some v => v
       | None => Author.email a
       end
  else Author.email a.
Proof. unfold patch_author. now destruct (Author.id a =? i). Qed.

Lemma patch_author_emails i data l :
  NoDup (map Author.id l) ->
  NoDup (map Author.email l) ->
  match AuthorUpdate.email data with
  | Some v =>
      existsb (fun a => String.eqb (Author.email a) v
                        && negb (Author.id a =? i)) l = false
  | None => True
  end ->
  NoDup (map Author.email (map (patch_author i data) l)).
Proof.
  destruct (AuthorUpdate.email data) as [v|] eqn:Ev.
  - induction l as [|x r IH]; simpl; intros Hid Hem Hchk; [constructor|].
    inversion Hid as [|? ? Hxi Hri]; inversion Hem as [|? ? Hxe Hre]; subst.
    apply orb_false_elim in Hchk as [Hx Hr].
    constructor; [|now apply IH].
    intros Hin. rewrite map_map in Hin.
    apply in_map_iff in Hin as (y & Ey & Hy).
    rewrite !patch_author_email, Ev in Ey.
    assert (Hyr : (String.eqb (Author.email y) v
                   && negb (Author.id y =? i))%bool = false).
    { rewrite existsb_false in Hr. now apply Hr. }
    destruct (Author.id x =? i) eqn:Ex, (Author.id y =? i) eqn:Eyi;
      simpl in *.
    + apply Z.eqb_eq in Ex, Eyi. apply Hxi. apply in_map_iff.
      exists y. split; [congruence|exact Hy].
    + rewrite andb_true_r in Hyr. apply String.eqb_neq in Hyr. congruence.
    + rewrite andb_true_r in Hx. apply String.eqb_neq in Hx. congruence.
    + apply Hxe. apply in_map_iff. exists y. split; [exact Ey|exact Hy].
  - intros _ Hem _. rewrite map_map.
    erewrite map_ext; [exact Hem|].
    intros a. rewrite patch_author_email, Ev. now destruct (_ =? _).
Qed.

Lemma email_in_use_false e d :
  email_in_use e d = false -> ~ In e (map Author.email (authors d)).
Proof.
  unfold email_in_use. rewrite existsb_false. intros H Hin.
  apply in_map_iff in Hin as (a & <- & Ha).
  specialize (H a Ha). now rewrite String.eqb_refl in H.
Qed.

Lemma app_unique_emails (r : Request) (d : Database) :
  primary_keys d -> unique_emails d -> unique_emails (app r d).
Proof.
  unfold unique_emails. intros [PA _] UE.
  destruct r; endpoint; try exact UE.
  - rewrite map_app. apply NoDup_snoc; [exact UE|].
    now apply email_in_use_false.
  - apply patch_author_emails; [exact PA|exact UE|].
    destruct (AuthorUpdate.email data); [assumption|exact I].
  - now apply NoDup_map_filter.
Qed.

Lemma app_names_nonempty (r : Request) (d : Database) :
  supplies_nonempty r -> names_nonempty d -> names_nonempty (app r d).
Proof.
  unfold names_nonempty. intros Hr [NA NP].
  destruct r; endpoint; try (split; assumption); split; try assumption;
    simpl in Hr.
  - intros a Ha. apply in_app_or in Ha as [Ha|[<-|[]]]; [now apply NA|].
    exact Hr.
  - intros a' Ha. apply in_map_iff in Ha as (a & <- & Ha).
    specialize (NA a Ha). unfold patch_author.
    destruct (Author.id a =? author_id); [simpl|exact NA].
    destruct (AuthorUpdate.name data) as [v|]; [congruence|exact NA].
  - intros a Ha. apply filter_In in Ha as [Ha _]. now apply NA.
  - intros p Hp. apply filter_In in Hp as [Hp _]. now apply NP.
  - intros p Hp. apply in_app_or in Hp as [Hp|[<-|[]]]; [now apply NP|].
    exact Hr.
  - intros p' Hp. apply in_map_iff in Hp as (p & <- & Hp).
    specialize (NP p Hp). unfold patch_post.
    destruct (Post.id p =? post_id); [simpl|exact NP].
    destruct (PostUpdate.title data) as [v|]; [congruence|exact NP].
  - intros p Hp. apply filter_In in Hp as [Hp _]. now apply NP.
Qed.

(** ** Reachable states *)

Lemma serve_invariant (Q : Request -> Prop) (P : Database -> Prop) :
  (forall r d, Q r -> P d -> P (app r d)) ->
  forall rs d, Forall Q rs -> P d -> P (serve rs d).
Proof.
  intros Hstep rs. induction rs as [|r rs IH]; simpl; intros d HQ Hd.
  - exact Hd.
  - inversion HQ; subst. apply IH; [assumption|]. now apply Hstep.
Qed.

Lemma reachable_invariant (P : Database -> Prop) :
  P create_all ->
  (forall r d, P d -> P (app r d)) ->
  forall d, reachable d -> P d.
Proof.
  intros H0 Hstep d [rs ->].
  apply (serve_invariant (fun _ => True)); auto.
  clear. induction rs; constructor; auto.
Qed.

Lemma reachable_app (r : Request) (d : Database) :
  reachable d -> reachable (app r d).
Proof.
  intros [rs ->]. exists (rs ++ [r]). unfold serve.
  now rewrite fold_left_app.
Qed.

Lemma reachable_primary_keys (d : Database) : reachable d -> primary_keys d.
Proof.
  apply reachable_invariant.
  - split; constructor.
  - intros r d0. apply app_primary_keys.
Qed.

Lemma reachable_foreign_keys (d : Database) : reachable d -> foreign_keys d.
Proof.
  apply reachable_invariant.
  - intros p [].
  - intros r d0. apply app_foreign_keys.
Qed.

Lemma reachable_unique_emails (d : Database) : reachable d -> unique_emails d.
Proof.
  intros Hd.
  cut (primary_keys d /\ unique_emails d); [tauto|].
  revert d Hd. apply reachable_invariant.
  - repeat split; constructor.
  - intros r d [PK UE]. split.
    + now apply app_primary_keys.
    + now apply app_unique_emails.
Qed.

(** ** Looking rows up *)

Lemma author_with_id_none (i : Z) (d : Database) :
  fits_INTEGER i = true ->
  author_with_id i d = None <->
  forall a, In a (authors d) -> Author.id a <> i.
Proof.
  intros F. rewrite (author_with_id_fits i d F), find_none_iff.
  split; intros H a Ha; specialize (H a Ha); now apply Z.eqb_neq.
Qed.

Lemma author_with_id_some (i : Z) (d : Database) :
  fits_INTEGER i = true ->
  (exists a, In a (authors d) /\ Author.id a = i) <->
  exists a, author_with_id i d = Some a.
Proof.
  intros F. split.
  - intros (a & Ha & E). destruct (author_with_id i d) as [b|] eqn:Eb; eauto.
    rewrite (author_with_id_none i d F) in Eb. now destruct (Eb a Ha).
  - intros (a & Ha). apply author_with_id_found in Ha as (H1 & H2 & _).
    eauto.
Qed.

Lemma post_with_id_none (i : Z) (d : Database) :
  fits_INTEGER i = true ->
  post_with_id i d = None <-> forall p, In p (posts d) -> Post.id p <> i.
Proof.
  intros F. rewrite (post_with_id_fits i d F), find_none_iff.
  split; intros H p Hp; specialize (H p Hp); now apply Z.eqb_neq.
Qed.

Lemma keys_fit_author (d : Database) (a : Author.t) :
  keys_fit d = true -> In a (authors d) -> fits_INTEGER (Author.id a) = true.
Proof.
  unfold keys_fit. intros H Ha. apply andb_true_iff in H as [H _].
  rewrite forallb_forall in H. now apply H.
Qed.

Lemma keys_fit_post (d : Database) (p : Post.t) :
  keys_fit d = true -> In p (posts d) -> fits_INTEGER (Post.id p) = true.
Proof.
  unfold keys_fit. intros H Hp. apply andb_true_iff in H as [_ H].
  rewrite forallb_forall in H. now apply H.
Qed.

Lemma NoDup_map_inj {A B : Type} (k : A -> B) (l : list A) (x y : A) :
  NoDup (map k l) -> In x l -> In y l -> k x = k y -> x = y.
Proof.
  induction l as [|z l IH]; simpl; [tauto|].
  intros H Hx Hy E. inversion H as [|? ? Hz Hl]; subst.
  destruct Hx as [->|Hx], Hy as [->|Hy]; auto.
  - destruct Hz. rewrite E. now apply in_map.
  - destruct Hz. rewrite <- E. now apply in_map.
Qed.

(** ** Deleting an author *)



(** ** Posts belong to live authors *)

(** C2: in every state reachable from the empty store by the service's
    operations, every stored post's [author_id] is the id of a stored
    author. *)
Theorem posts_reference_live_authors (d : Database) (p : Post.t) :
  reachable d ->
  In p (posts d) ->
  exists a, In a (authors d) /\ Author.id a = Post.author_id p.
Proof. intros Hd. now apply reachable_foreign_keys. Qed.

Lemma posts_reference_live_authors_witness :
  reachable blog /\ In (Post.mk 1 "Hi" "World" 1) (posts blog) /\
  exists a, In a (authors blog) /\ Author.id a = 1.
Proof.
  assert (R : reachable blog)
    by (exists [POST_authors ada; POST_posts hi]; reflexivity).
  assert (I : In (Post.mk 1 "Hi" "World" 1) (posts blog)) by (now left).
  split; [exact R|]. split; [exact I|].
  exact (posts_reference_live_authors blog _ R I).
Defined.

(** ** Reads *)

(** C10: in every state, [list_authors], [get_author], [list_posts] (with
    or without a filter), [get_post] and [get_author_posts] leave the
    stored authors and posts as they were, whether they return or raise. *)
Theorem reads_leave_store_unchanged (d : Database) :
  snd (get_db list_authors d) = d
  /\ (forall i, snd (get_db (get_author i) d) = d)
  /\ (forall f, snd (get_db (list_posts f) d) = d)
  /\ (forall i, snd (get_db (get_post i) d) = d)
  /\ (forall i, snd (get_db (get_author_posts i) d) = d).
Proof.
  split; [reflexivity|]. repeat split; intros.
  - rewrite get_author_run.
    now destruct (fits_INTEGER i), (author_with_id i d).
  - rewrite list_posts_run.
    destruct f as [i|]; [destruct (fits_INTEGER i)|]; reflexivity.
  - rewrite get_post_run.
    now destruct (fits_INTEGER i), (post_with_id i d).
  - rewrite get_author_posts_run.
    now destruct (fits_INTEGER i), (author_with_id i d).
Qed.

(** ** Emails *)

Lemma email_in_use_iff (e : string) (d : Database) :
  email_in_use e d = true <->
  exists b, In b (authors d) /\ Author.email b = e.
Proof.
  unfold email_in_use. rewrite existsb_exists.
  split; intros (b & Hb & E); exists b; split; auto;
    now apply String.eqb_eq.
Qed.

Lemma email_of_another_iff (i : Z) (e : string) (d : Database) :
  email_of_another i e d = true <->
  exists b, In b (authors d) /\ Author.id b <> i /\ Author.email b = e.
Proof.
  unfold email_of_another. rewrite existsb_exists. split.
  - intros (b & Hb & E). apply andb_true_iff in E as [E1 E2].
    exists b. repeat split; [exact Hb| |now apply String.eqb_eq].
    now apply Z.eqb_neq, negb_true_iff.
  - intros (b & Hb & E1 & E2). exists b. split; [exact Hb|].
    apply andb_true_iff. split; [now apply String.eqb_eq|].
    now apply negb_true_iff, Z.eqb_neq.
Qed.

Lemma own_email_is_free (d : Database) (a : Author.t) :
  unique_emails d -> In a (authors d) ->
  email_of_another (Author.id a) (Author.email a) d = false.
Proof.
  intros UE Ha. apply not_true_is_false. rewrite email_of_another_iff.
  intros (b & Hb & Hne & E). apply Hne.
  now rewrite (NoDup_map_inj Author.email (authors d) b a UE Hb Ha E).
Qed.

(** C3, as the code has it: in every state of the service (its keys are
    INTEGER values), [create_author] raises 400 "Email already in use" and
    leaves the store as it is when a stored author holds the email, and
    otherwise appends and returns a new author, under a fresh id, with the
    name and email given.  [update_author] with an email supplied, for an
    id that a stored author has, raises 400 "Email already in use" exactly
    when a stored author with a different id holds that email, and then
    leaves the store as it is; for an id (an INTEGER value) that no stored
    author has it raises 404 "Author not found" whatever the email.
    Updating an author's email to its own current value succeeds. *)
Theorem email_conflicts (d : Database) :
  reachable d ->
  keys_fit d = true ->
  (forall author : AuthorCreate.t,
      ((exists b, In b (authors d)
                  /\ Author.email b = AuthorCreate.email author) ->
       get_db (create_author author) d = (Raise Email_already_in_use, d))
      /\
      ((forall b, In b (authors d) ->
                  Author.email b <> AuthorCreate.email author) ->
       exists a,
         Author.name a = AuthorCreate.name author
         /\ Author.email a = AuthorCreate.email author
         /\ (forall b, In b (authors d) -> Author.id b <> Author.id a)
         /\ get_db (create_author author) d =
            (Return (AuthorOut.mk (Author.id a) (Author.name a)
                                  (Author.email a)),
             {| authors := authors d ++ [a]; posts := posts d |})))
  /\
  (forall (i : Z) (data : AuthorUpdate.t) (e : string),
      AuthorUpdate.email data = Some e ->
      ((exists a, In a (authors d) /\ Author.id a = i) ->
       (fst (get_db (update_author i data) d) = Raise Email_already_in_use
        <-> exists b, In b (authors d)
                      /\ Author.id b <> i /\ Author.email b = e)
       /\ (fst (get_db (update_author i data) d)
           = Raise Email_already_in_use ->
           snd (get_db (update_author i data) d) = d))
      /\
      (fits_INTEGER i = true ->
       (forall a, In a (authors d) -> Author.id a <> i) ->
       get_db (update_author i data) d = (Raise Author_not_found, d)))
  /\
  (forall (a : Author.t) (data : AuthorUpdate.t),
      In a (authors d) ->
      AuthorUpdate.email data = Some (Author.email a) ->
      exists out,
        fst (get_db (update_author (Author.id a) data) d) = Return out
        /\ AuthorOut.id out = Author.id a
        /\ AuthorOut.email out = Author.email a).
Proof.
  intros Hd K. split; [|split].
  - intros author. rewrite create_author_run. split.
    + intros Hex. apply email_in_use_iff in Hex. now rewrite Hex.
    + intros Hno.
      assert (E : email_in_use (AuthorCreate.email author) d = false).
      { apply not_true_is_false. rewrite email_in_use_iff.
        intros (b & Hb & Eb). now apply (Hno b). }
      rewrite E.
      exists (Author.mk (next_rowid (map Author.id (authors d)))
                        (AuthorCreate.name author)
                        (AuthorCreate.email author)).
      split; [reflexivity|]. split; [reflexivity|]. split; [|reflexivity].
      simpl. intros b Hb Eq.
      apply (next_rowid_not_in (map Author.id (authors d))).
      rewrite <- Eq. now apply in_map.
  - intros i data e Ee. rewrite update_author_run, Ee. split.
    + intros (a0 & Ha0 & Hi0).
      assert (F : fits_INTEGER i = true)
        by (rewrite <- Hi0; now apply (keys_fit_author d a0)).
      rewrite F.
      assert (Hex : exists a, In a (authors d) /\ Author.id a = i) by eauto.
      apply (author_with_id_some i d F) in Hex as [a Ha]. rewrite Ha.
      rewrite <- email_of_another_iff.
      destruct (email_of_another i e d); simpl.
      * split; [tauto|reflexivity].
      * split; [split; discriminate|discriminate].
    + intros F Hno. rewrite F.
      apply (author_with_id_none i d F) in Hno. now rewrite Hno.
  - intros a data Ha Ee. rewrite update_author_run, Ee.
    pose proof (keys_fit_author d a K Ha) as F. rewrite F.
    rewrite (own_email_is_free d a (reachable_unique_emails d Hd) Ha).
    destruct (author_with_id (Author.id a) d) as [b|] eqn:Eb.
    + eexists. split; [reflexivity|].
      apply author_with_id_found in Eb as (Hb & Eid & _).
      destruct (reachable_primary_keys d Hd) as [PA _].
      rewrite (NoDup_map_inj Author.id (authors d) b a PA Hb Ha Eid).
      unfold patch_author. rewrite Z.eqb_refl, Ee. now split.
    + rewrite (author_with_id_none _ d F) in Eb. now destruct (Eb a Ha).
Qed.

(** Ada keeps her email and changes her name. *)
Lemma email_conflicts_witness :
  reachable blog /\ keys_fit blog = true /\
  exists out,
    fst (get_db (update_author 1 (AuthorUpdate.mk (Some "Ada L."%string)
                                                  (Some "ada@x.io"%string)))
                blog) = Return out
    /\ AuthorOut.id out = 1
    /\ AuthorOut.email out = "ada@x.io"%string.
Proof.
  assert (R : reachable blog)
    by (exists [POST_authors ada; POST_posts hi]; reflexivity).
  split; [exact R|]. split; [reflexivity|].
  destruct (email_conflicts blog R eq_refl) as (_ & _ & H).
  apply (H (Author.mk 1 "Ada" "ada@x.io")); [now left|reflexivity].
Defined.

(** C3 as stated fails where the id is unknown: in the example store Ada,
    author 1, holds "ada@x.io", so for id 2 another author holds the email
    supplied, and yet [update_author 2] does not raise 400 "Email already
    in use": no author 2 exists and it raises 404 "Author not found". *)
Lemma update_author_unknown_id_counterexample :
  reachable blog /\
  ~ (fst (get_db (update_author 2 (AuthorUpdate.mk None
                                                   (Some "ada@x.io"%string)))
                 blog) = Raise Email_already_in_use
     <-> exists b, In b (authors blog)
                   /\ Author.id b <> 2
                   /\ Author.email b = "ada@x.io"%string).
Proof.
  split; [exists [POST_authors ada; POST_posts hi]; reflexivity|].
  intros [_ H].
  assert (E : fst (get_db (update_author 2
                             (AuthorUpdate.mk None (Some "ada@x.io"%string)))
                          blog) = Raise Author_not_found) by reflexivity.
  rewrite E in H. discriminate H.
  exists (Author.mk 1 "Ada" "ada@x.io"). repeat split.
  - now left.
  - discriminate.
Qed.

(** ** Creating a post *)



(** ** Partial updates *)

Lemma Forall2_map_self {A : Type} (R : A -> A -> Prop) (f : A -> A)
      (l : list A) :
  (forall x, R x (f x)) -> Forall2 R l (map f l).
Proof. intros H. induction l; simpl; constructor; auto. Qed.

Lemma Forall2_self {A : Type} (R : A -> A -> Prop) (l : list A) :
  (forall x, R x x) -> Forall2 R l l.
Proof. intros H. induction l; constructor; auto. Qed.

Lemma author_frame_patch i data a :
  author_frame i data a (patch_author i data a).
Proof.
  unfold author_frame, patch_author.
  destruct (Author.id a =? i) eqn:E; simpl.
  - repeat split; try (intros ->; reflexivity).
    apply Z.eqb_eq in E. tauto.
  - repeat split.
Qed.

Lemma post_frame_patch i data p : post_frame i data p (patch_post i data p).
Proof.
  unfold post_frame, patch_post.
  destruct (Post.id p =? i) eqn:E; simpl.
  - repeat split; try (intros ->; reflexivity).
    apply Z.eqb_eq in E. tauto.
  - repeat split.
Qed.

(** C5: for every store, every id and every partial update, after
    [update_author] each stored author still has its id and every field
    the partial leaves out, authors with another id and all posts are as
    before, and when the update returns, the author with that id has the
    fields supplied; [update_author] with an empty partial on an existing
    author returns it and leaves the store as it is.  The same holds of
    [update_post], which on an existing post always returns, and after
    which every post still has its [author_id]. *)
Theorem partial_updates_keep_omitted_fields (d : Database) (i : Z) :
  (forall data : AuthorUpdate.t,
      Forall2 (author_frame i data) (authors d)
              (authors (snd (get_db (update_author i data) d)))
      /\ posts (snd (get_db (update_author i data) d)) = posts d)
  /\
  (forall (data : AuthorUpdate.t) (out : AuthorOut.t),
      fst (get_db (update_author i data) d) = Return out ->
      forall a', In a' (authors (snd (get_db (update_author i data) d))) ->
                 Author.id a' = i ->
                 (forall v, AuthorUpdate.name data = Some v ->
                            Author.name a' = v)
                 /\ (forall v, AuthorUpdate.email data = Some v ->
                               Author.email a' = v))
  /\
  (forall a, author_with_id i d = Some a ->
             get_db (update_author i (AuthorUpdate.mk None None)) d
             = (Return (AuthorOut.from_orm a), d))
  /\
  (forall data : PostUpdate.t,
      Forall2 (post_frame i data) (posts d)
              (posts (snd (get_db (update_post i data) d)))
      /\ authors (snd (get_db (update_post i data) d)) = authors d)
  /\
  (forall (data : PostUpdate.t) (p : Post.t),
      post_with_id i d = Some p ->
      (exists out, fst (get_db (update_post i data) d) = Return out)
      /\ forall p', In p' (posts (snd (get_db (update_post i data) d))) ->
                    Post.id p' = i ->
                    (forall v, PostUpdate.title data = Some v ->
                               Post.title p' = v)
                    /\ (forall v, PostUpdate.content data = Some v ->
                                  Post.content p' = v))
  /\
  (forall p, post_with_id i d = Some p ->
             get_db (update_post i (PostUpdate.mk None None)) d
             = (Return (PostOut.from_orm p (relationship_author d p)), d)).
Proof.
  assert (FA : forall data, Forall2 (author_frame i data) (authors d)
                                    (authors d))
    by (intros data; apply Forall2_self; intros x; repeat split).
  assert (FP : forall data, Forall2 (post_frame i data) (posts d) (posts d))
    by (intros data; apply Forall2_self; intros x; repeat split).
  repeat apply conj.
  - intros data. rewrite update_author_run.
    destruct (fits_INTEGER i); [|now split].
    destruct (author_with_id i d); [|now split].
    destruct (match AuthorUpdate.email data with
              | Some v => email_of_another i v d
              | None => false
              end); [now split|].
    simpl. split; [|reflexivity].
    apply Forall2_map_self. apply author_frame_patch.
  - intros data out. rewrite update_author_run.
    destruct (fits_INTEGER i); [|discriminate].
    destruct (author_with_id i d); [|discriminate].
    destruct (match AuthorUpdate.email data with
              | Some v => email_of_another i v d
              | None => false
              end); [discriminate|].
    simpl. intros _ a' Ha' Hi. apply in_map_iff in Ha' as (a & <- & Ha).
    rewrite patch_author_id in Hi. unfold patch_author.
    apply Z.eqb_eq in Hi. rewrite Hi. simpl.
    split; intros v ->; reflexivity.
  - intros a Ha. rewrite update_author_run, Ha.
    apply author_with_id_found in Ha as (_ & _ & F & _). rewrite F. simpl.
    rewrite patch_author_empty, (map_fixed _ _ (patch_author_empty i)).
    now rewrite Database_eta.
  - intros data. rewrite update_post_run.
    destruct (fits_INTEGER i); [|now split].
    destruct (post_with_id i d); [|now split].
    simpl. split; [|reflexivity].
    apply Forall2_map_self. apply post_frame_patch.
  - intros data p Hp. rewrite update_post_run, Hp.
    apply post_with_id_found in Hp as (_ & _ & F & _). rewrite F. simpl.
    split; [eexists; reflexivity|].
    intros p' Hp' Hi. apply in_map_iff in Hp' as (q & <- & Hq).
    rewrite patch_post_id in Hi. unfold patch_post.
    apply Z.eqb_eq in Hi. rewrite Hi. simpl.
    split; intros v ->; reflexivity.
  - intros p Hp. rewrite update_post_run, Hp.
    apply post_with_id_found in Hp as (_ & _ & F & _). rewrite F. simpl.
    rewrite patch_post_empty, (map_fixed _ _ (patch_post_empty i)).
    now rewrite Database_eta.
Qed.

(** ** Posts with their authors *)








(** ** Failures *)

Lemma author_exists_found (i : Z) (d : Database) :
  fits_INTEGER i = true ->
  author_exists i d = match author_with_id i d with
                      | Some _ => true
                      | None => false
                      end.
Proof.
  intros F. unfold author_exists.
  now rewrite find_existsb, (author_with_id_fits i d F).
Qed.

Lemma post_exists_found (i : Z) (d : Database) :
  fits_INTEGER i = true ->
  post_exists i d = match post_with_id i d with
                    | Some _ => true
                    | None => false
                    end.
Proof.
  intros F. unfold post_exists.
  now rewrite find_existsb, (post_with_id_fits i d F).
Qed.

(** What each cause of failure makes the handlers raise. *)
Lemma failure_raises (r : Request) (d : Database) :
  ids_fit r = true ->
  match failure r d with
  | None => app_raises r d = None
  | Some NotFound =>
      app_raises r d = Some Author_not_found
      \/ app_raises r d = Some Post_not_found
  | Some Conflict => app_raises r d = Some Email_already_in_use
  | Some ValidationError => app_raises r d = Some Author_does_not_exist
  end.
Proof.
  destruct r; simpl; intros F;
    rewrite ?(author_exists_found _ d F), ?(post_exists_found _ d F);
    rewrite ?create_author_run, ?get_author_run, ?update_author_run,
      ?delete_author_run, ?create_post_run, ?get_post_run,
      ?update_post_run, ?delete_post_run, ?get_author_posts_run, ?F.
  - now destruct (email_in_use _ d).
  - reflexivity.
  - destruct (author_with_id _ d); simpl; auto.
  - destruct (author_with_id _ d); simpl; auto.
    destruct (AuthorUpdate.email data) as [v|]; [|reflexivity].
    now destruct (email_of_another _ v d).
  - destruct (author_with_id _ d); simpl; auto.
  - now destruct (author_with_id _ d).
  - rewrite list_posts_run. destruct author_id as [i|]; simpl in F;
      now rewrite ?F.
  - destruct (post_with_id _ d); simpl; auto.
  - destruct (post_with_id _ d); simpl; auto.
  - destruct (post_with_id _ d); simpl; auto.
  - destruct (author_with_id _ d); simpl; auto.
Qed.

(** C8, as the code has it: a request whose ids are INTEGER values ends in
    an exception exactly when it fails in one of the three ways; a NotFound
    (the id does not exist) is reported with status 404, a Conflict (the
    email is taken) and a ValidationError (the author of a new post does
    not exist) both with status 400.  Two failures of different kinds
    always differ in their detail message, and they differ in their status
    exactly when one of them is a NotFound. *)
Theorem failures_distinguished (r1 r2 : Request) (d1 d2 : Database) :
  ids_fit r1 = true ->
  ids_fit r2 = true ->
  (failure r1 d1 = None <-> app_raises r1 d1 = None)
  /\
  (forall k1 k2 : Kind,
      failure r1 d1 = Some k1 ->
      failure r2 d2 = Some k2 ->
      exists (s1 s2 : Z) (m1 m2 : string),
        app_raises r1 d1 = Some (HTTPException s1 m1)
        /\ app_raises r2 d2 = Some (HTTPException s2 m2)
        /\ s1 = match k1 with NotFound => 404 | _ => 400 end
        /\ s2 = match k2 with NotFound => 404 | _ => 400 end
        /\ (k1 <> k2 ->
            m1 <> m2 /\ (s1 <> s2 <-> k1 = NotFound \/ k2 = NotFound))).
Proof.
  intros F1 F2.
  pose proof (failure_raises r1 d1 F1) as H1.
  pose proof (failure_raises r2 d2 F2) as H2.
  split.
  - destruct (failure r1 d1) as [[| |]|];
      [destruct H1 as [H1|H1]| | |]; rewrite H1;
      split; intros H; (discriminate H || reflexivity).
  - intros k1 k2 E1 E2. rewrite E1 in H1. rewrite E2 in H2.
    destruct k1, k2;
      try destruct H1 as [H1|H1]; try destruct H2 as [H2|H2];
      rewrite H1, H2; do 4 eexists;
      (split; [reflexivity|]); (split; [reflexivity|]);
      (split; [reflexivity|]); (split; [reflexivity|]);
      intros Hk; try (now destruct Hk);
      (split; [discriminate|]);
      (split; [intros Hs; try (now destruct Hs); auto
              |intros [Hn|Hn]; try discriminate Hn; discriminate]).
Qed.

(** A taken email and a missing author, the one a Conflict and the other a
    NotFound: statuses 400 and 404. *)
Lemma failures_distinguished_witness :
  ids_fit (POST_authors ada) = true /\ ids_fit (GET_author 7) = true /\
  exists (m1 m2 : string),
    app_raises (POST_authors ada) blog = Some (HTTPException 400 m1)
    /\ app_raises (GET_author 7) blog = Some (HTTPException 404 m2)
    /\ m1 <> m2.
Proof.
  split; [reflexivity|]. split; [reflexivity|].
  destruct (failures_distinguished (POST_authors ada) (GET_author 7)
              blog blog eq_refl eq_refl) as [_ H].
  destruct (H Conflict NotFound eq_refl eq_refl)
    as (s1 & s2 & m1 & m2 & E1 & E2 & -> & -> & Hd).
  exists m1, m2. split; [exact E1|]. split; [exact E2|].
  apply Hd. discriminate.
Defined.

(** C8 as stated fails: in the example store, creating an author with Ada's
    email fails as a Conflict and creating a post for author 7, who does
    not exist, fails as a ValidationError, and both are reported with
    status 400. *)
Lemma conflict_and_validation_share_status_counterexample :
  failure (POST_authors ada) blog = Some Conflict
  /\ failure (POST_posts orphan) blog = Some ValidationError
  /\ Conflict <> ValidationError
  /\ app_raises (POST_authors ada) blog
     = Some (HTTPException 400 "Email already in use")
  /\ app_raises (POST_posts orphan) blog
     = Some (HTTPException 400 "Author does not exist")
  /\ status_of (HTTPException 400 "Email already in use")
     = status_of (HTTPException 400 "Author does not exist").
Proof. repeat split. discriminate. Qed.

(** ** Names and titles *)

(** C9, as the code has it: in every state reached by requests that supply
    no empty name and no empty title, no stored author has an empty name
    and no stored post an empty title; the handlers store names and titles
    as they are supplied. *)
Theorem names_and_titles_as_supplied (rs : list Request) :
  Forall supplies_nonempty rs ->
  (forall a, In a (authors (serve rs create_all)) ->
             Author.name a <> EmptyString)
  /\ (forall p, In p (posts (serve rs create_all)) ->
                Post.title p <> EmptyString).
Proof.
  intros Hrs.
  apply (serve_invariant supplies_nonempty names_nonempty).
  - apply app_names_nonempty.
  - exact Hrs.
  - split; intros ? [].
Qed.

Lemma names_and_titles_as_supplied_witness :
  Forall supplies_nonempty [POST_authors ada; POST_posts hi] /\
  (forall a, In a (authors blog) -> Author.name a <> EmptyString)
  /\ (forall p, In p (posts blog) -> Post.title p <> EmptyString).
Proof.
  assert (H : Forall supplies_nonempty [POST_authors ada; POST_posts hi])
    by (repeat constructor; discriminate).
  split; [exact H|].
  exact (names_and_titles_as_supplied _ H).
Defined.

(** C9 as stated fails: nothing checks that a name or a title is not
    empty.  Creating an author with the empty name and then a post with the
    empty title for that author stores both, and so does updating Ada's
    name and the title of her post to the empty string. *)
Lemma empty_name_and_title_counterexample :
  reachable blank
  /\ In (Author.mk 1 "" "ada@x.io") (authors blank)
  /\ In (Post.mk 1 "" "World" 1) (posts blank)
  /\ ~ names_nonempty blank
  /\ reachable blanked
  /\ In (Author.mk 1 "" "ada@x.io") (authors blanked)
  /\ In (Post.mk 1 "" "World" 1) (posts blanked).
Proof.
  split; [exists [POST_authors anonymous; POST_posts untitled]; reflexivity|].
  split; [now left|]. split; [now left|]. split.
  - intros [H _].
    apply (H (Author.mk 1 "" "ada@x.io")); [now left|reflexivity].
  - split; [|split; now left].
    exists [POST_authors ada; POST_posts hi;
            PUT_author 1 (AuthorUpdate.mk (Some EmptyString) None);
            PUT_post 1 (PostUpdate.mk (Some EmptyString) None)].
    reflexivity.
Qed.

(** ** Requests that fail *)

(** X1: a request that ends in an exception leaves the store exactly as it
    was, also when the handler had already changed an object before it
    raised ([update_author] assigns the name before it checks the email). *)
Theorem failed_request_changes_nothing
        (r : Request) (d : Database) (e : Exception) :
  app_raises r d = Some e -> app r d = d.
Proof.
  destruct r; endpoint; intros H; try discriminate H; reflexivity.
Qed.

Lemma failed_request_changes_nothing_witness :
  app_raises (PUT_author 2 take_over) blog2 = Some Email_already_in_use /\
  app (PUT_author 2 take_over) blog2 = blog2.
Proof.
  assert (H : app_raises (PUT_author 2 take_over) blog2
              = Some Email_already_in_use) by reflexivity.
  split; [exact H|].
  exact (failed_request_changes_nothing _ _ _ H).
Defined.

(** ** Uniqueness *)

(** X2: in every state of the service no two stored authors hold the same
    email. *)
Theorem emails_stay_unique (d : Database) :
  reachable d -> NoDup (map Author.email (authors d)).
Proof. apply reachable_unique_emails. Qed.

Lemma emails_stay_unique_witness :
  reachable blog2 /\ NoDup (map Author.email (authors blog2)).
Proof.
  assert (R : reachable blog2)
    by (exists [POST_authors ada; POST_posts hi; POST_authors bob];
        reflexivity).
  split; [exact R|]. exact (emails_stay_unique blog2 R).
Defined.

(** X3: in every state of the service no two stored authors have the same
    id and no two stored posts have the same id. *)
Theorem ids_stay_unique (d : Database) :
  reachable d ->
  NoDup (map Author.id (authors d)) /\ NoDup (map Post.id (posts d)).
Proof. apply reachable_primary_keys. Qed.

Lemma ids_stay_unique_witness :
  reachable blog2 /\
  NoDup (map Author.id (authors blog2)) /\ NoDup (map Post.id (posts blog2)).
Proof.
  assert (R : reachable blog2)
    by (exists [POST_authors ada; POST_posts hi; POST_authors bob];
        reflexivity).
  split; [exact R|]. exact (ids_stay_unique blog2 R).
Defined.

(** ** Creating, then reading *)

(** X4: when [create_author] returns an author and leaves a store whose
    keys are INTEGER values, that author is the one [get_author] then
    returns for its id, and [list_authors] then returns the authors it
    returned before followed by the new one. *)
Theorem created_author_can_be_read
        (d d' : Database) (author : AuthorCreate.t) (out : AuthorOut.t) :
  get_db (create_author author) d = (Return out, d') ->
  keys_fit d' = true ->
  get_db (get_author (AuthorOut.id out)) d' = (Return out, d')
  /\ AuthorOut.name out = AuthorCreate.name author
  /\ AuthorOut.email out = AuthorCreate.email author
  /\ exists before,
      get_db list_authors d = (Return before, d)
      /\ get_db list_authors d' = (Return (before ++ [out]), d').
Proof.
  rewrite create_author_run.
  destruct (email_in_use _ d); [discriminate|].
  simpl. intros H K. injection H as <- <-.
  rewrite get_author_run. simpl.
  assert (F : fits_INTEGER (next_rowid (map Author.id (authors d))) = true).
  { apply (keys_fit_author _ (Author.mk _ (AuthorCreate.name author)
                                          (AuthorCreate.email author)) K).
    simpl. apply in_or_app. right. now left. }
  rewrite F, (author_with_id_fits _ _ F). simpl.
  rewrite find_app, author_key_fresh. simpl. rewrite Z.eqb_refl.
  repeat split. eexists. split; [reflexivity|].
  rewrite list_authors_run. simpl. now rewrite map_app.
Qed.

Lemma created_author_can_be_read_witness :
  get_db (create_author bob) blog
  = (Return (AuthorOut.mk 2 "Bob" "bob@x.io"), blog2) /\
  keys_fit blog2 = true /\
  get_db (get_author 2) blog2
  = (Return (AuthorOut.mk 2 "Bob" "bob@x.io"), blog2).
Proof.
  assert (H : get_db (create_author bob) blog
              = (Return (AuthorOut.mk 2 "Bob" "bob@x.io"), blog2))
    by reflexivity.
  split; [exact H|]. split; [reflexivity|].
  exact (proj1 (created_author_can_be_read _ _ _ _ H eq_refl)).
Defined.

(** X5: when [create_post] returns a post and leaves a store whose keys
    are INTEGER values, that post, author included, is the one [get_post]
    then returns for its id, and [list_posts] without a filter then returns
    the posts it returned before followed by the new one. *)
Theorem created_post_can_be_read
        (d d' : Database) (post : PostCreate.t) (out : PostOut.t) :
  get_db (create_post post) d = (Return out, d') ->
  keys_fit d' = true ->
  get_db (get_post (PostOut.id out)) d' = (Return out, d')
  /\ exists before,
      get_db (list_posts None) d = (Return before, d)
      /\ get_db (list_posts None) d' = (Return (before ++ [out]), d').
Proof.
  rewrite create_post_run.
  destruct (fits_INTEGER (PostCreate.author_id post)); [|discriminate].
  destruct (author_with_id _ d) as [a|] eqn:Ha; [|discriminate].
  simpl. intros H K. injection H as <- <-.
  rewrite get_post_run. simpl.
  assert (F : fits_INTEGER (next_rowid (map Post.id (posts d))) = true).
  { apply (keys_fit_post _ (Post.mk _ (PostCreate.title post)
                                      (PostCreate.content post)
                                      (PostCreate.author_id post)) K).
    simpl. apply in_or_app. right. now left. }
  rewrite F, (post_with_id_fits _ _ F). simpl.
  rewrite find_app, post_key_fresh. simpl. rewrite Z.eqb_refl.
  apply author_with_id_found in Ha as (_ & _ & _ & Ha).
  assert (Hr : relationship_author
                 {| authors := authors d;
                    posts := posts d ++
                      [Post.mk (next_rowid (map Post.id (posts d)))
                               (PostCreate.title post)
                               (PostCreate.content post)
                               (PostCreate.author_id post)] |}
                 (Post.mk (next_rowid (map Post.id (posts d)))
                          (PostCreate.title post) (PostCreate.content post)
                          (PostCreate.author_id post)) = Some a)
    by exact Ha.
  rewrite Hr. split; [reflexivity|].
  eexists. split; [apply list_posts_all_run|].
  rewrite list_posts_all_run. simpl.
  rewrite filter_app, map_app. simpl. now rewrite Hr.
Qed.

Lemma created_post_can_be_read_witness :
  get_db (create_post hi) (serve [POST_authors ada] create_all)
  = (Return (PostOut.mk 1 "Hi" "World" 1
                        (Some (AuthorOut.mk 1 "Ada" "ada@x.io"))), blog) /\
  keys_fit blog = true /\
  get_db (get_post 1) blog
  = (Return (PostOut.mk 1 "Hi" "World" 1
                        (Some (AuthorOut.mk 1 "Ada" "ada@x.io"))), blog).
Proof.
  assert (H : get_db (create_post hi) (serve [POST_authors ada] create_all)
              = (Return (PostOut.mk 1 "Hi" "World" 1
                           (Some (AuthorOut.mk 1 "Ada" "ada@x.io"))), blog))
    by reflexivity.
  split; [exact H|]. split; [reflexivity|].
  exact (proj1 (created_post_can_be_read _ _ _ _ H eq_refl)).
Defined.

(** X6: whatever becomes of a [create_author] request, its email is taken
    afterwards: a further [create_author] with that email, under any name,
    raises 400 "Email already in use" and stores nothing. *)
Theorem email_is_taken_after_create
        (d : Database) (first second : AuthorCreate.t) :
  AuthorCreate.email second = AuthorCreate.email first ->
  get_db (create_author second) (snd (get_db (create_author first) d))
  = (Raise Email_already_in_use, snd (get_db (create_author first) d)).
Proof.
  intros E. rewrite (create_author_run first).
  destruct (email_in_use (AuthorCreate.email first) d) eqn:Ed; simpl;
    rewrite create_author_run, E.
  - now rewrite Ed.
  - unfold email_in_use. simpl. rewrite existsb_app. simpl.
    now rewrite String.eqb_refl, orb_true_r.
Qed.

Lemma email_is_taken_after_create_witness :
  get_db (create_author (AuthorCreate.mk "Ada L." "ada@x.io"))
         (snd (get_db (create_author ada) create_all))
  = (Raise Email_already_in_use, snd (get_db (create_author ada) create_all)).
Proof.
  apply (email_is_taken_after_create create_all ada
           (AuthorCreate.mk "Ada L." "ada@x.io")).
  reflexivity.
Defined.

(** ** Deleting, then reading *)

Lemma post_with_id_some (i : Z) (d : Database) :
  fits_INTEGER i = true ->
  (exists p, In p (posts d) /\ Post.id p = i) <->
  exists p, post_with_id i d = Some p.
Proof.
  intros F. split.
  - intros (p & Hp & E). destruct (post_with_id i d) as [q|] eqn:Eq; eauto.
    rewrite (post_with_id_none i d F) in Eq. now destruct (Eq p Hp).
  - intros (p & Hp). apply post_with_id_found in Hp as (H1 & H2 & _). eauto.
Qed.

Lemma filter_nothing {A : Type} (f : A -> bool) (l : list A) :
  (forall x, In x l -> f x = false) -> filter f l = [].
Proof.
  induction l as [|x l IH]; simpl; intros H; [reflexivity|].
  rewrite (H x (or_introl eq_refl)). apply IH.
  intros y Hy. apply H. now right.
Qed.

Lemma author_gone (i : Z) (d : Database) :
  author_with_id i
    {| authors := filter (fun a => negb (Author.id a =? i)) (authors d);
       posts := filter (fun p => negb (Post.author_id p =? i)) (posts d) |}
  = None.
Proof.
  unfold author_with_id. destruct (fits_INTEGER i); [|reflexivity].
  apply find_none_iff. simpl. intros a Ha.
  apply filter_In in Ha as [_ Ha]. now apply negb_true_iff in Ha.
Qed.

Lemma post_gone (i : Z) (d : Database) :
  post_with_id i
    {| authors := authors d;
       posts := filter (fun p => negb (Post.id p =? i)) (posts d) |}
  = None.
Proof.
  unfold post_with_id. destruct (fits_INTEGER i); [|reflexivity].
  apply find_none_iff. simpl. intros p Hp.
  apply filter_In in Hp as [_ Hp]. now apply negb_true_iff in Hp.
Qed.

(** X7: [delete_post] raises [OverflowError] for an id that is no INTEGER
    value and 404 "Post not found" for one that no stored post has, and
    leaves the store as it is; otherwise it returns its message and commits
    a store with the same authors and with every post but that one, after
    which [get_post] and a second [delete_post] on the id raise 404 "Post
    not found". *)
Theorem delete_post_removes_one_post (d : Database) (i : Z) :
  (fits_INTEGER i = false ->
   get_db (delete_post i) d = (Raise OverflowError, d))
  /\
  (fits_INTEGER i = true ->
   (forall p, In p (posts d) -> Post.id p <> i) ->
   get_db (delete_post i) d = (Raise Post_not_found, d))
  /\
  (fits_INTEGER i = true ->
   (exists p, In p (posts d) /\ Post.id p = i) ->
   exists d',
     get_db (delete_post i) d
     = (Return "Post deleted successfully"%string, d')
     /\ authors d' = authors d
     /\ (forall p, In p (posts d') <-> In p (posts d) /\ Post.id p <> i)
     /\ get_db (get_post i) d' = (Raise Post_not_found, d')
     /\ get_db (delete_post i) d' = (Raise Post_not_found, d')).
Proof.
  rewrite delete_post_run. split; [|split].
  - now intros ->.
  - intros F Hno. rewrite F.
    apply (post_with_id_none i d F) in Hno. now rewrite Hno.
  - intros F Hex. rewrite F.
    apply (post_with_id_some i d F) in Hex as [p Hp]. rewrite Hp.
    eexists. split; [reflexivity|]. split; [reflexivity|].
    rewrite get_post_run, delete_post_run, F, post_gone.
    split; [|split; reflexivity].
    intros q. simpl. rewrite filter_In, negb_true_iff, Z.eqb_neq. tauto.
Qed.

(** X8: once [delete_author] has returned for an id, the author is gone for
    every endpoint: [get_author], [get_author_posts], [update_author] and a
    second [delete_author] raise 404 "Author not found", [list_posts]
    filtered on the id returns the empty list, and [create_post] for the id
    raises 400 "Author does not exist"; none of them changes the store. *)
Theorem deleted_author_is_gone (d d' : Database) (X : Z) (msg : string) :
  get_db (delete_author X) d = (Return msg, d') ->
  get_db (get_author X) d' = (Raise Author_not_found, d')
  /\ get_db (get_author_posts X) d' = (Raise Author_not_found, d')
  /\ get_db (delete_author X) d' = (Raise Author_not_found, d')
  /\ (forall data,
         get_db (update_author X data) d' = (Raise Author_not_found, d'))
  /\ get_db (list_posts (Some X)) d' = (Return [], d')
  /\ (forall post, PostCreate.author_id post = X ->
         get_db (create_post post) d' = (Raise Author_does_not_exist, d')).
Proof.
  rewrite delete_author_run.
  destruct (fits_INTEGER X) eqn:F; [|discriminate].
  destruct (author_with_id X d); [|discriminate].
  intros H. injection H as _ <-.
  rewrite get_author_run, get_author_posts_run, delete_author_run,
    list_posts_run, F, author_gone.
  repeat split.
  - intros data. now rewrite update_author_run, F, author_gone.
  - simpl.
    rewrite (filter_nothing (fun p => Post.author_id p =? X));
      [reflexivity|].
    intros p Hp. apply filter_In in Hp as [_ Hp].
    now apply negb_true_iff in Hp.
  - intros post <-. now rewrite create_post_run, F, author_gone.
Qed.

Lemma deleted_author_is_gone_witness :
  get_db (delete_author 1) blog
  = (Return "Author and their posts deleted successfully"%string, create_all)
  /\ get_db (get_author 1) create_all = (Raise Author_not_found, create_all).
Proof.
  assert (H : get_db (delete_author 1) blog
              = (Return "Author and their posts deleted successfully"%string,
                 create_all)) by reflexivity.
  split; [exact H|].
  exact (proj1 (deleted_author_is_gone _ _ _ _ H)).
Defined.

(** X9: in every state of the service (its keys are INTEGER values), once
    an author has been deleted its email is free again: [create_author]
    with that email returns a new author. *)
Theorem deleted_authors_email_is_free
        (d : Database) (a : Author.t) (author : AuthorCreate.t) :
  reachable d ->
  keys_fit d = true ->
  In a (authors d) ->
  AuthorCreate.email author = Author.email a ->
  exists out d'',
    get_db (create_author author)
           (snd (get_db (delete_author (Author.id a)) d))
    = (Return out, d'')
    /\ AuthorOut.name out = AuthorCreate.name author
    /\ AuthorOut.email out = Author.email a.
Proof.
  intros Hd K Ha E. pose proof (keys_fit_author d a K Ha) as F.
  rewrite delete_author_run, F.
  destruct (author_with_id (Author.id a) d) as [b|] eqn:Eb.
  - simpl. rewrite create_author_run.
    match goal with |- context [email_in_use ?e ?s] =>
      assert (G : email_in_use e s = false) end.
    { apply not_true_is_false. rewrite email_in_use_iff. simpl.
      intros (c & Hc & Ec). apply filter_In in Hc as [Hc Hne].
      apply negb_true_iff, Z.eqb_neq in Hne. apply Hne.
      rewrite E in Ec.
      now rewrite (NoDup_map_inj Author.email (authors d) c a
                     (reachable_unique_emails d Hd) Hc Ha Ec). }
    rewrite G. do 2 eexists. split; [reflexivity|]. now split.
  - rewrite (author_with_id_none _ d F) in Eb. now destruct (Eb a Ha).
Qed.

Lemma deleted_authors_email_is_free_witness :
  reachable blog /\ keys_fit blog = true /\
  exists out d'',
    get_db (create_author ada) (snd (get_db (delete_author 1) blog))
    = (Return out, d'')
    /\ AuthorOut.name out = "Ada"%string
    /\ AuthorOut.email out = "ada@x.io"%string.
Proof.
  assert (R : reachable blog)
    by (exists [POST_authors ada; POST_posts hi]; reflexivity).
  split; [exact R|]. split; [reflexivity|].
  apply (deleted_authors_email_is_free blog (Author.mk 1 "Ada" "ada@x.io")
           ada R eq_refl); [now left|reflexivity].
Defined.

(** ** Updating, then reading or updating again *)

Lemma existsb_map_stable {A : Type} (f : A -> bool) (g : A -> A)
      (l : list A) :
  (forall x, f (g x) = f x) -> existsb f (map g l) = existsb f l.
Proof.
  intros H. induction l as [|x l IH]; simpl; [reflexivity|].
  now rewrite H, IH.
Qed.

Lemma patch_author_twice i data a :
  patch_author i data (patch_author i data a) = patch_author i data a.
Proof.
  unfold patch_author. destruct (Author.id a =? i) eqn:E; simpl;
    rewrite E; [|reflexivity].
  now destruct (AuthorUpdate.name data), (AuthorUpdate.email data).
Qed.

Lemma patch_post_twice i data p :
  patch_post i data (patch_post i data p) = patch_post i data p.
Proof.
  unfold patch_post. destruct (Post.id p =? i) eqn:E; simpl;
    rewrite E; [|reflexivity].
  now destruct (PostUpdate.title data), (PostUpdate.content data).
Qed.

Lemma author_with_id_patched i data d a :
  author_with_id i d = Some a ->
  author_with_id i {| authors := map (patch_author i data) (authors d);
                      posts := posts d |}
  = Some (patch_author i data a).
Proof.
  intros Ha. apply author_with_id_found in Ha as (_ & _ & F & Ha).
  rewrite (author_with_id_fits _ _ F). simpl.
  rewrite find_map_stable, Ha; [reflexivity|].
  intros x. now rewrite patch_author_id.
Qed.

Lemma post_with_id_patched i data d p :
  post_with_id i d = Some p ->
  post_with_id i {| authors := authors d;
                    posts := map (patch_post i data) (posts d) |}
  = Some (patch_post i data p).
Proof.
  intros Hp. apply post_with_id_found in Hp as (_ & _ & F & Hp).
  rewrite (post_with_id_fits _ _ F). simpl.
  rewrite find_map_stable, Hp; [reflexivity|].
  intros x. now rewrite patch_post_id.
Qed.

Lemma email_of_another_patched i data v d :
  email_of_another i v {| authors := map (patch_author i data) (authors d);
                          posts := posts d |}
  = email_of_another i v d.
Proof.
  unfold email_of_another. simpl. apply existsb_map_stable.
  intros a. unfold patch_author.
  destruct (Author.id a =? i) eqn:E; simpl; rewrite ?E; simpl;
    rewrite ?andb_false_r; reflexivity.
Qed.

(** X10: the author [update_author] returns is the one [get_author] then
    returns for the id. *)
Theorem updated_author_can_be_read
        (d d' : Database) (i : Z) (data : AuthorUpdate.t)
        (out : AuthorOut.t) :
  get_db (update_author i data) d = (Return out, d') ->
  get_db (get_author i) d' = (Return out, d').
Proof.
  rewrite update_author_run.
  destruct (fits_INTEGER i) eqn:F; [|discriminate].
  destruct (author_with_id i d) as [a|] eqn:Ha; [|discriminate].
  destruct (match AuthorUpdate.email data with
            | Some v => email_of_another i v d
            | None => false
            end); [discriminate|].
  intros H. injection H as <- <-.
  now rewrite get_author_run, F, (author_with_id_patched i data d a Ha).
Qed.

Lemma updated_author_can_be_read_witness :
  get_db (update_author 1 (AuthorUpdate.mk (Some "Ada L."%string) None)) blog
  = (Return (AuthorOut.mk 1 "Ada L." "ada@x.io"),
     app (PUT_author 1 (AuthorUpdate.mk (Some "Ada L."%string) None)) blog)
  /\
  get_db (get_author 1)
         (app (PUT_author 1 (AuthorUpdate.mk (Some "Ada L."%string) None))
              blog)
  = (Return (AuthorOut.mk 1 "Ada L." "ada@x.io"),
     app (PUT_author 1 (AuthorUpdate.mk (Some "Ada L."%string) None)) blog).
Proof.
  assert (H : get_db (update_author 1
                        (AuthorUpdate.mk (Some "Ada L."%string) None)) blog
              = (Return (AuthorOut.mk 1 "Ada L." "ada@x.io"),
                 app (PUT_author 1
                        (AuthorUpdate.mk (Some "Ada L."%string) None)) blog))
    by reflexivity.
  split; [exact H|].
  exact (updated_author_can_be_read _ _ _ _ _ H).
Defined.

(** X11: [update_author] is idempotent: repeating an update that returned
    returns the same author again and leaves the store as the first update
    left it. *)
Theorem update_author_twice
        (d d' : Database) (i : Z) (data : AuthorUpdate.t)
        (out : AuthorOut.t) :
  get_db (update_author i data) d = (Return out, d') ->
  get_db (update_author i data) d' = (Return out, d').
Proof.
  rewrite update_author_run.
  destruct (fits_INTEGER i) eqn:F; [|discriminate].
  destruct (author_with_id i d) as [a|] eqn:Ha; [|discriminate].
  destruct (match AuthorUpdate.email data with
            | Some v => email_of_another i v d
            | None => false
            end) eqn:Hc; [discriminate|].
  intros H. injection H as <- <-.
  rewrite update_author_run, F, (author_with_id_patched i data d a Ha).
  assert (Hc' : match AuthorUpdate.email data with
                | Some v =>
                    email_of_another i v
                      {| authors := map (patch_author i data) (authors d);
                         posts := posts d |}
                | None => false
                end = false).
  { destruct (AuthorUpdate.email data); [|reflexivity].
    now rewrite email_of_another_patched. }
  rewrite Hc'. simpl. rewrite patch_author_twice, map_map.
  rewrite (map_ext _ (patch_author i data)); [reflexivity|].
  intros x. apply patch_author_twice.
Qed.

Lemma update_author_twice_witness :
  get_db (update_author 1 (AuthorUpdate.mk (Some "Ada L."%string) None)) blog
  = (Return (AuthorOut.mk 1 "Ada L." "ada@x.io"),
     app (PUT_author 1 (AuthorUpdate.mk (Some "Ada L."%string) None)) blog)
  /\
  get_db (update_author 1 (AuthorUpdate.mk (Some "Ada L."%string) None))
         (app (PUT_author 1 (AuthorUpdate.mk (Some "Ada L."%string) None))
              blog)
  = (Return (AuthorOut.mk 1 "Ada L." "ada@x.io"),
     app (PUT_author 1 (AuthorUpdate.mk (Some "Ada L."%string) None)) blog).
Proof.
  assert (H : get_db (update_author 1
                        (AuthorUpdate.mk (Some "Ada L."%string) None)) blog
              = (Return (AuthorOut.mk 1 "Ada L." "ada@x.io"),
                 app (PUT_author 1
                        (AuthorUpdate.mk (Some "Ada L."%string) None)) blog))
    by reflexivity.
  split; [exact H|].
  exact (update_author_twice _ _ _ _ _ H).
Defined.

(** X12: the post [update_post] returns, author included, is the one
    [get_post] then returns for the id, and repeating the update returns it
    again and leaves the store as the first update left it. *)
Theorem updated_post_can_be_read
        (d d' : Database) (i : Z) (data : PostUpdate.t) (out : PostOut.t) :
  get_db (update_post i data) d = (Return out, d') ->
  get_db (get_post i) d' = (Return out, d')
  /\ get_db (update_post i data) d' = (Return out, d').
Proof.
  rewrite update_post_run.
  destruct (fits_INTEGER i) eqn:F; [|discriminate].
  destruct (post_with_id i d) as [p|] eqn:Hp; [|discriminate].
  intros H. injection H as <- <-.
  rewrite get_post_run, update_post_run, F,
    (post_with_id_patched i data d p Hp).
  assert (Hr : relationship_author
                 {| authors := authors d;
                    posts := map (patch_post i data) (posts d) |}
                 (patch_post i data p) = relationship_author d p).
  { unfold relationship_author. simpl.
    now rewrite patch_post_author_id. }
  rewrite Hr. split; [reflexivity|].
  simpl. rewrite patch_post_twice, map_map.
  rewrite (map_ext _ (patch_post i data)); [reflexivity|].
  intros x. apply patch_post_twice.
Qed.

Lemma updated_post_can_be_read_witness :
  get_db (update_post 1 (PostUpdate.mk (Some "Hello"%string) None)) blog
  = (Return (PostOut.mk 1 "Hello" "World" 1
                        (Some (AuthorOut.mk 1 "Ada" "ada@x.io"))),
     app (PUT_post 1 (PostUpdate.mk (Some "Hello"%string) None)) blog)
  /\
  get_db (get_post 1)
         (app (PUT_post 1 (PostUpdate.mk (Some "Hello"%string) None)) blog)
  = (Return (PostOut.mk 1 "Hello" "World" 1
                        (Some (AuthorOut.mk 1 "Ada" "ada@x.io"))),
     app (PUT_post 1 (PostUpdate.mk (Some "Hello"%string) None)) blog).
Proof.
  assert (H : get_db (update_post 1
                        (PostUpdate.mk (Some "Hello"%string) None)) blog
              = (Return (PostOut.mk 1 "Hello" "World" 1
                           (Some (AuthorOut.mk 1 "Ada" "ada@x.io"))),
                 app (PUT_post 1 (PostUpdate.mk (Some "Hello"%string) None))
                     blog)) by reflexivity.
  split; [exact H|].
  exact (proj1 (updated_post_can_be_read _ _ _ _ _ H)).
Defined.

(** ** Reading one and reading all *)

(** X13: in every state of the service [get_author] and [list_authors]
    agree on every id that is an INTEGER value: [get_author i] returns an
    author exactly when that author, with id [i], is in the list
    [list_authors] returns, and it raises 404 "Author not found" exactly
    when no author of the list has id [i]. *)
Theorem get_author_agrees_with_list_authors
        (d : Database) (i : Z) (out : AuthorOut.t) :
  reachable d ->
  fits_INTEGER i = true ->
  exists all : list AuthorOut.t,
    get_db list_authors d = (Return all, d)
    /\ (get_db (get_author i) d = (Return out, d) <->
        In out all /\ AuthorOut.id out = i)
    /\ (get_db (get_author i) d = (Raise Author_not_found, d) <->
        forall o, In o all -> AuthorOut.id o <> i).
Proof.
  intros Hd F. destruct (reachable_primary_keys d Hd) as [PA _].
  eexists. split; [apply list_authors_run|].
  rewrite get_author_run, F.
  destruct (author_with_id i d) as [a|] eqn:Ha.
  - apply author_with_id_found in Ha as (Hin & Hid & _). split; split.
    + intros H. injection H as <-. split; [now apply in_map|exact Hid].
    + intros [Ho Hi]. apply in_map_iff in Ho as (b & <- & Hb).
      simpl in Hi. rewrite <- Hid in Hi.
      now rewrite (NoDup_map_inj Author.id (authors d) b a PA Hb Hin Hi).
    + discriminate.
    + intros H. destruct (H (AuthorOut.from_orm a)); [now apply in_map|].
      exact Hid.
  - rewrite (author_with_id_none i d F) in Ha. split; split.
    + discriminate.
    + intros [Ho Hi]. apply in_map_iff in Ho as (b & <- & Hb).
      now destruct (Ha b Hb).
    + intros _ o Ho. apply in_map_iff in Ho as (b & <- & Hb).
      now apply Ha.
    + reflexivity.
Qed.

Lemma get_author_agrees_with_list_authors_witness :
  reachable blog2 /\ fits_INTEGER 2 = true /\
  exists all : list AuthorOut.t,
    get_db list_authors blog2 = (Return all, blog2)
    /\ In (AuthorOut.mk 2 "Bob" "bob@x.io") all.
Proof.
  assert (R : reachable blog2)
    by (exists [POST_authors ada; POST_posts hi; POST_authors bob];
        reflexivity).
  split; [exact R|]. split; [reflexivity|].
  destruct (get_author_agrees_with_list_authors
              blog2 2 (AuthorOut.mk 2 "Bob" "bob@x.io") R eq_refl)
    as (all & E & [H _] & _).
  exists all. split; [exact E|]. now apply H.
Defined.

(** X14: in every state of the service [get_post] and [list_posts] without
    a filter agree on every id that is an INTEGER value: [get_post i]
    returns a post, author attached, exactly when that post, with id [i],
    is in the list [list_posts] returns, and it raises 404 "Post not found"
    exactly when no post of the list has id [i]. *)
Theorem get_post_agrees_with_list_posts
        (d : Database) (i : Z) (out : PostOut.t) :
  reachable d ->
  fits_INTEGER i = true ->
  exists all : list PostOut.t,
    get_db (list_posts None) d = (Return all, d)
    /\ (get_db (get_post i) d = (Return out, d) <->
        In out all /\ PostOut.id out = i)
    /\ (get_db (get_post i) d = (Raise Post_not_found, d) <->
        forall o, In o all -> PostOut.id o <> i).
Proof.
  intros Hd F. destruct (reachable_primary_keys d Hd) as [_ PP].
  eexists. split; [apply list_posts_all_run|].
  assert (Hall : forall o,
             In o (map (fun p => PostOut.from_orm p (relationship_author d p))
                       (filter (fun _ => true) (posts d))) <->
             exists p, In p (posts d)
                       /\ o = PostOut.from_orm p (relationship_author d p)).
  { intros o. rewrite in_map_iff. split.
    - intros (p & <- & Hp). apply filter_In in Hp as [Hp _]. eauto.
    - intros (p & Hp & ->). exists p. split; [reflexivity|].
      now apply filter_In. }
  rewrite get_post_run, F.
  destruct (post_with_id i d) as [p|] eqn:Hp.
  - apply post_with_id_found in Hp as (Hin & Hid & _). split; split.
    + intros H. injection H as <-. split; [|exact Hid].
      apply Hall. eauto.
    + intros [Ho Hi]. apply Hall in Ho as (q & Hq & ->).
      simpl in Hi. rewrite <- Hid in Hi.
      now rewrite (NoDup_map_inj Post.id (posts d) q p PP Hq Hin Hi).
    + discriminate.
    + intros H.
      destruct (H (PostOut.from_orm p (relationship_author d p)));
        [apply Hall; eauto|exact Hid].
  - rewrite (post_with_id_none i d F) in Hp. split; split.
    + discriminate.
    + intros [Ho Hi]. apply Hall in Ho as (q & Hq & ->).
      now destruct (Hp q Hq).
    + intros _ o Ho. apply Hall in Ho as (q & Hq & ->). now apply Hp.
    + reflexivity.
Qed.

Lemma get_post_agrees_with_list_posts_witness :
  reachable blog /\ fits_INTEGER 1 = true /\
  exists all : list PostOut.t,
    get_db (list_posts None) blog = (Return all, blog)
    /\ In (PostOut.mk 1 "Hi" "World" 1
                      (Some (AuthorOut.mk 1 "Ada" "ada@x.io"))) all.
Proof.
  assert (R : reachable blog)
    by (exists [POST_authors ada; POST_posts hi]; reflexivity).
  split; [exact R|]. split; [reflexivity|].
  destruct (get_post_agrees_with_list_posts
              blog 1 (PostOut.mk 1 "Hi" "World" 1
                                 (Some (AuthorOut.mk 1 "Ada" "ada@x.io")))
              R eq_refl)
    as (all & E & [H _] & _).
  exists all. split; [exact E|]. now apply H.
Defined.

(** X15: for an id that a stored author has, [get_author_posts] and
    [list_posts] filtered on that id return the same list and leave the
    same store. *)
Theorem get_author_posts_is_filtered_list_posts (d : Database) (X : Z) :
  (exists a, In a (authors d) /\ Author.id a = X) ->
  get_db (get_author_posts X) d = get_db (list_posts (Some X)) d.
Proof.
  intros Hex. rewrite get_author_posts_run, list_posts_run.
  destruct (fits_INTEGER X) eqn:F; [|reflexivity].
  apply (author_with_id_some X d F) in Hex as [a Ha]. now rewrite Ha.
Qed.

Lemma get_author_posts_is_filtered_list_posts_witness :
  (exists a, In a (authors blog) /\ Author.id a = 1) /\
  get_db (get_author_posts 1) blog = get_db (list_posts (Some 1)) blog.
Proof.
  assert (H : exists a, In a (authors blog) /\ Author.id a = 1)
    by (exists (Author.mk 1 "Ada" "ada@x.io"); split;
        [now left|reflexivity]).
  split; [exact H|].
  exact (get_author_posts_is_filtered_list_posts blog 1 H).
Defined.

(** ** Sequences of requests *)

Lemma read_changes_nothing (r : Request) (d : Database) :
  is_read r = true -> app r d = d.
Proof.
  destruct r; intros H; try discriminate H; unfold app.
  - reflexivity.
  - rewrite get_author_run.
    now destruct (fits_INTEGER author_id), (author_with_id author_id d).
  - rewrite list_posts_run.
    destruct author_id as [i|]; [destruct (fits_INTEGER i)|]; reflexivity.
  - rewrite get_post_run.
    now destruct (fits_INTEGER post_id), (post_with_id post_id d).
  - rewrite get_author_posts_run.
    now destruct (fits_INTEGER author_id), (author_with_id author_id d).
Qed.

(** X16: the reads of a sequence of requests do not count for the store it
    leaves: served from the same store, the sequence and the sequence
    without its GET requests end in the same store. *)
Theorem reads_can_be_dropped (rs : list Request) (d : Database) :
  serve rs d = serve (filter (fun r => negb (is_read r)) rs) d.
Proof.
  revert d. induction rs as [|r rs IH]; intros d; simpl; [reflexivity|].
  destruct (is_read r) eqn:E; simpl.
  - rewrite (read_changes_nothing r d E). apply IH.
  - apply IH.
Qed.

(** X17: only a delete removes rows.  Whatever request is served, unless
    it is DELETE /authors/{id} the ids of the stored authors are afterwards
    what they were, in the same order, with at most new ones after them;
    unless it is DELETE /authors/{id} or DELETE /posts/{id} the same holds
    of the ids of the stored posts together with their [author_id]s. *)
Theorem only_deletes_remove_rows (r : Request) (d : Database) :
  ((forall j, r <> DELETE_author j) ->
   exists added,
     map Author.id (authors (app r d))
     = map Author.id (authors d) ++ added)
  /\
  ((forall j, r <> DELETE_author j) ->
   (forall j, r <> DELETE_post j) ->
   exists added,
     map (fun p => (Post.id p, Post.author_id p)) (posts (app r d))
     = map (fun p => (Post.id p, Post.author_id p)) (posts d) ++ added).
Proof.
  split.
  - intros H. destruct r; try (now destruct (H _ eq_refl)); endpoint;
      try (exists []; now rewrite app_nil_r).
    + eexists. now rewrite map_app.
    + exists []. now rewrite app_nil_r, map_id_patch_author.
  - intros H1 H2.
    destruct r; try (now destruct (H1 _ eq_refl));
      try (now destruct (H2 _ eq_refl)); endpoint;
      try (exists []; now rewrite app_nil_r).
    + eexists. now rewrite map_app.
    + exists []. rewrite app_nil_r, map_map. apply map_ext.
      intros p. now rewrite patch_post_id, patch_post_author_id.
Qed.

(** ** Posts and their authors across requests *)

Lemma filter_map_swap {A B : Type} (f : B -> bool) (g : A -> B)
      (l : list A) :
  filter f (map g l) = map g (filter (fun x => f (g x)) l).
Proof.
  induction l as [|x l IH]; simpl; [reflexivity|].
  destruct (f (g x)); simpl; now rewrite IH.
Qed.

Lemma filter_all {A : Type} (l : list A) : filter (fun _ => true) l = l.
Proof. induction l as [|x l IH]; simpl; [reflexivity|now rewrite IH]. Qed.

Lemma find_filter_kept {A : Type} (f g : A -> bool) (l : list A) (x : A) :
  find f l = Some x -> g x = true -> find f (filter g l) = Some x.
Proof.
  induction l as [|y l IH]; simpl; [discriminate|].
  destruct (f y) eqn:Fy.
  - intros H Hg. injection H as ->. rewrite Hg. simpl. now rewrite Fy.
  - intros H Hg. destruct (g y); simpl; [rewrite Fy|]; now apply IH.
Qed.

(** X18: filtering on the server is filtering the full list: for an author
    id that is an INTEGER value, the list [list_posts] returns is the list
    it returns without a filter, restricted to the posts with that
    [author_id], in the same order; for any other id it raises
    [OverflowError]. *)
Theorem list_posts_filter_is_restriction (d : Database) (X : Z) :
  (fits_INTEGER X = true ->
   exists all by_author : list PostOut.t,
     get_db (list_posts None) d = (Return all, d)
     /\ get_db (list_posts (Some X)) d = (Return by_author, d)
     /\ by_author = filter (fun o => PostOut.author_id o =? X) all)
  /\
  (fits_INTEGER X = false ->
   get_db (list_posts (Some X)) d = (Raise OverflowError, d)).
Proof.
  split; intros F.
  - do 2 eexists. split; [apply list_posts_all_run|].
    split; [rewrite list_posts_run, F; reflexivity|].
    now rewrite filter_map_swap, filter_all.
  - now rewrite list_posts_run, F.
Qed.

(** X19: a post read after its author was updated shows the author as
    updated: when [update_author] has returned an author, [get_post] on any
    post of that author returns the post with exactly that author
    attached. *)
Theorem updated_author_shows_on_posts
        (d d' : Database) (i j : Z) (data : AuthorUpdate.t)
        (out : AuthorOut.t) (p : Post.t) :
  get_db (update_author i data) d = (Return out, d') ->
  post_with_id j d = Some p ->
  Post.author_id p = i ->
  get_db (get_post j) d'
  = (Return (PostOut.mk (Post.id p) (Post.title p) (Post.content p) i
                        (Some out)), d').
Proof.
  rewrite update_author_run.
  destruct (fits_INTEGER i) eqn:F; [|discriminate].
  destruct (author_with_id i d) as [a|] eqn:Ha; [|discriminate].
  destruct (match AuthorUpdate.email data with
            | Some v => email_of_another i v d
            | None => false
            end); [discriminate|].
  intros H Hp Hi. injection H as <- <-.
  apply post_with_id_found in Hp as (_ & _ & Fj & Hp).
  rewrite get_post_run, Fj, (post_with_id_fits _ _ Fj). simpl. rewrite Hp.
  unfold relationship_author. simpl. rewrite Hi.
  pose proof (author_with_id_patched i data d a Ha) as Hr.
  rewrite (author_with_id_fits _ _ F) in Hr. simpl in Hr. rewrite Hr.
  unfold PostOut.from_orm. simpl. now rewrite Hi.
Qed.

Lemma updated_author_shows_on_posts_witness :
  get_db (update_author 1 (AuthorUpdate.mk (Some "Ada L."%string) None)) blog
  = (Return (AuthorOut.mk 1 "Ada L." "ada@x.io"),
     app (PUT_author 1 (AuthorUpdate.mk (Some "Ada L."%string) None)) blog)
  /\
  get_db (get_post 1)
         (app (PUT_author 1 (AuthorUpdate.mk (Some "Ada L."%string) None))
              blog)
  = (Return (PostOut.mk 1 "Hi" "World" 1
                        (Some (AuthorOut.mk 1 "Ada L." "ada@x.io"))),
     app (PUT_author 1 (AuthorUpdate.mk (Some "Ada L."%string) None)) blog).
Proof.
  assert (H : get_db (update_author 1
                        (AuthorUpdate.mk (Some "Ada L."%string) None)) blog
              = (Return (AuthorOut.mk 1 "Ada L." "ada@x.io"),
                 app (PUT_author 1
                        (AuthorUpdate.mk (Some "Ada L."%string) None)) blog))
    by reflexivity.
  split; [exact H|].
  exact (updated_author_shows_on_posts
           _ _ 1 1 _ _ (Post.mk 1 "Hi" "World" 1) H eq_refl eq_refl).
Defined.

(** X20: deleting an author leaves the posts of the other authors as they
    were: a post that [get_post] returned before and that belongs to
    another author is returned by [get_post] afterwards, unchanged and with
    the same author attached. *)
Theorem delete_author_spares_other_posts
        (d d' : Database) (X j : Z) (msg : string) (out : PostOut.t) :
  get_db (delete_author X) d = (Return msg, d') ->
  get_db (get_post j) d = (Return out, d) ->
  PostOut.author_id out <> X ->
  get_db (get_post j) d' = (Return out, d').
Proof.
  rewrite delete_author_run.
  destruct (fits_INTEGER X); [|discriminate].
  destruct (author_with_id X d); [|discriminate].
  intros H. injection H as _ <-.
  rewrite !get_post_run.
  destruct (fits_INTEGER j) eqn:Fj; [|discriminate].
  destruct (post_with_id j d) as [p|] eqn:Hp; [|discriminate].
  intros H Hne. injection H as <-. simpl in Hne.
  apply post_with_id_found in Hp as (_ & _ & _ & Hp).
  rewrite (post_with_id_fits _ _ Fj). simpl.
  rewrite (find_filter_kept _ _ _ p Hp)
    by now apply negb_true_iff, Z.eqb_neq.
  do 3 f_equal. unfold relationship_author. simpl.
  destruct (find (fun a => Author.id a =? Post.author_id p) (authors d))
    as [a|] eqn:Ea.
  - apply find_filter_kept; [exact Ea|].
    apply find_author_id in Ea as [_ Ea].
    apply negb_true_iff, Z.eqb_neq. congruence.
  - apply find_none_iff. intros a Ha. apply filter_In in Ha as [Ha _].
    rewrite find_none_iff in Ea. now apply Ea.
Qed.

Lemma delete_author_spares_other_posts_witness :
  get_db (delete_author 2) blog2
  = (Return "Author and their posts deleted successfully"%string, blog)
  /\ get_db (get_post 1) blog2
     = (Return (PostOut.mk 1 "Hi" "World" 1
                           (Some (AuthorOut.mk 1 "Ada" "ada@x.io"))), blog2)
  /\ get_db (get_post 1) blog
     = (Return (PostOut.mk 1 "Hi" "World" 1
                           (Some (AuthorOut.mk 1 "Ada" "ada@x.io"))), blog).
Proof.
  assert (H1 : get_db (delete_author 2) blog2
               = (Return "Author and their posts deleted successfully"%string,
                  blog)) by reflexivity.
  assert (H2 : get_db (get_post 1) blog2
               = (Return (PostOut.mk 1 "Hi" "World" 1
                            (Some (AuthorOut.mk 1 "Ada" "ada@x.io"))), blog2))
    by reflexivity.
  split; [exact H1|]. split; [exact H2|].
  apply (delete_author_spares_other_posts _ _ 2 1 _ _ H1 H2).
  discriminate.
Defined.

(** ** Ids that are no INTEGER values *)

(** X21: a request ends in [OverflowError] exactly when one of the ids it
    carries, in its path, its query or its body, does not fit SQLite's
    64-bit INTEGER, and it then leaves the store as it is. *)
Theorem out_of_range_id_overflows (r : Request) (d : Database) :
  (app_raises r d = Some OverflowError <-> ids_fit r = false)
  /\ (ids_fit r = false -> app r d = d).
Proof.
  assert (H : ids_fit r = false ->
              app_raises r d = Some OverflowError /\ app r d = d).
  { destruct r; simpl; intros F; try discriminate F;
      rewrite ?get_author_run, ?update_author_run, ?delete_author_run,
        ?create_post_run, ?get_post_run, ?update_post_run,
        ?delete_post_run, ?get_author_posts_run, ?F; try (now split).
    destruct author_id as [i|]; [|discriminate F].
    now rewrite list_posts_run, F. }
  split; [split|]; [|apply H|apply H].
  intros E. destruct (ids_fit r) eqn:F; [|reflexivity].
  pose proof (failure_raises r d F) as G.
  destruct (failure r d) as [[| |]|]; [destruct G as [G|G]| | |];
    rewrite G in E; discriminate E.
Qed.

Lemma out_of_range_id_overflows_witness :
  ids_fit (GET_author too_large) = false /\
  app_raises (GET_author too_large) blog = Some OverflowError /\
  app (GET_author too_large) blog = blog.
Proof.
  assert (F : ids_fit (GET_author too_large) = false) by reflexivity.
  destruct (out_of_range_id_overflows (GET_author too_large) blog)
    as [[_ H1] H2].
  split; [exact F|]. split; [exact (H1 F)|exact (H2 F)].
Defined.
